(** * DMRoomMap: the direct-message room index

    A shallow embedding of the class [DMRoomMap] (the index that flips the
    [m.direct] account data so that "rooms for a user" and "user for a room"
    are both cheap), together with the properties its specification states.

    Conventions of the embedding.
    - A JavaScript object used as a dictionary is an association list in
      own-key order.  Reading a property is [obj_get], assigning one is
      [obj_set]: an existing key keeps its position, a new key goes last.
      This is the behaviour of an object for keys that are neither array
      indices (which [Object.keys] lists first, in numeric order) nor names
      of properties of [Object.prototype]; the identifiers of users and rooms
      start with a sigil, [@] or [!], and are neither.
    - The index of a new instance shares its arrays with the content of the
      event it copies.  The only array changed in place is the one
      [patchUpSelfDMs] pushes a room to, and the map gets a new array from
      [uniq] in the next statement, so the change is seen by the holder of the
      event content only; the model does not follow that holder.
    - A method is a function from the instance state to a result and the
      next instance state.
    - The calls the class makes on its collaborators ([logger.warn],
      [matrixClient.setAccountData]) are recorded, in order, in the ghost
      field [trace] of the state.
    - What the class reads from the session ([getUserId], [getRoom],
      [getAccountData]) is a record of observations, [MatrixClient]. *)

From Stdlib Require Import List String Bool Arith Lia.
From Stdlib Require QArith.
Import ListNotations.
Local Open Scope string_scope.
Local Open Scope list_scope.

Set Implicit Arguments.

(** ** JavaScript objects as ordered dictionaries *)

Module JsObj.

Section Obj.
Variable V : Type.

Definition t := list (string * V).

(** [o[k]]: [None] is [undefined]. *)
Fixpoint obj_get (k : string) (o : t) : option V :=
  match o with
  | [] => None
  | (k', v) :: rest => if String.eqb k k' then Some v else obj_get k rest
  end.

(** [o[k] = v]. *)
Fixpoint obj_set (k : string) (v : V) (o : t) : t :=
  match o with
  | [] => [(k, v)]
  | (k', v') :: rest =>
      if String.eqb k k' then (k', v) :: rest else (k', v') :: obj_set k v rest
  end.

(** [Object.keys(o)] and [Object.values(o)]. *)
Definition obj_keys (o : t) : list string := map fst o.
Definition obj_values (o : t) : list V := map snd o.

(** [{ ...o }]: every own property of [o], in order, is defined on a new
    object. *)
Definition obj_copy (o : t) : t :=
  fold_left (fun acc kv => obj_set (fst kv) (snd kv) acc) o [].

End Obj.

End JsObj.
Import JsObj.

(** ** Arrays, sets and strings *)

(** [a.includes(x)] on an array of strings. *)
Definition includes (a : list string) (x : string) : bool :=
  existsb (String.eqb x) a.

(** lodash [uniq]: duplicates are dropped, the first occurrence of every
    element is kept, in order.  [seen] is the result built so far. *)
Fixpoint uniq_from (seen : list string) (a : list string) : list string :=
  match a with
  | [] => []
  | x :: rest =>
      if includes seen x then uniq_from seen rest
      else x :: uniq_from (x :: seen) rest
  end.

Definition uniq (a : list string) : list string := uniq_from [] a.

(** [Set.prototype.add]: a [Set<string>] is the list of its elements in
    insertion order. *)
Definition set_add (s : list string) (x : string) : list string :=
  if includes s x then s else s ++ [x].

(** Truthiness of a string value: the empty string is falsy. *)
Definition truthy (s : string) : bool := negb (String.eqb s "").

(** [array.map(f).filter(x => !!x)] where [f] returns an object or
    [undefined]. *)
Fixpoint map_defined (A B : Type) (f : A -> option B) (l : list A) : list B :=
  match l with
  | [] => []
  | x :: rest =>
      match f x with
      | Some y => y :: map_defined f rest
      | None => map_defined f rest
      end
  end.

(** ** The session collaborators *)

(** What the class reads from a [Room]. *)
Record Room := mkRoom {
  roomId : string;
  guessDMUserId : option string;
  getDMInviter : option string;
  getMyMembership : string;
  getInvitedAndJoinedMemberCount : nat
}.

(** The content of an [m.direct] event, as typed by the class:
    [{ [key: string]: string[] }]. *)
Definition DirectMap := JsObj.t (list string).

Record MatrixEvent := mkEvent {
  getType : string;
  getContent : DirectMap
}.

Definition EventType_Direct : string := "m.direct".

(** What the class reads from a [MatrixClient]. *)
Record MatrixClient := mkClient {
  getUserId : string;
  getRoom : string -> option Room;
  getAccountData : string -> option MatrixEvent
}.

(** Calls made on the collaborators. *)
Inductive Effect :=
| LoggerWarn (message : string)
| SetAccountData (eventType : string) (content : DirectMap).

Definition is_write (e : Effect) : bool :=
  match e with
  | SetAccountData _ _ => true
  | LoggerWarn _ => false
  end.

Definition is_warn (e : Effect) : bool :=
  match e with
  | LoggerWarn _ => true
  | SetAccountData _ _ => false
  end.

Definition writes (tr : list Effect) : nat := List.length (filter is_write tr).
Definition warns (tr : list Effect) : nat := List.length (filter is_warn tr).

(** ** The instance state *)

Record DMRoomMap := mkDMRoomMap {
  roomToUser : option (JsObj.t string);
  userToRooms : option DirectMap;
  hasSentOutPatchDirectAccountDataPatch : bool;
  mDirectEvent : DirectMap;
  (* ghost *)
  listening : bool;
  trace : list Effect
}.

Definition set_roomToUser (v : option (JsObj.t string)) (s : DMRoomMap) :=
  mkDMRoomMap v (userToRooms s) (hasSentOutPatchDirectAccountDataPatch s)
              (mDirectEvent s) (listening s) (trace s).

Definition set_userToRooms (v : option DirectMap) (s : DMRoomMap) :=
  mkDMRoomMap (roomToUser s) v (hasSentOutPatchDirectAccountDataPatch s)
              (mDirectEvent s) (listening s) (trace s).

Definition set_hasSent (v : bool) (s : DMRoomMap) :=
  mkDMRoomMap (roomToUser s) (userToRooms s) v
              (mDirectEvent s) (listening s) (trace s).

Definition set_mDirectEvent (v : DirectMap) (s : DMRoomMap) :=
  mkDMRoomMap (roomToUser s) (userToRooms s)
              (hasSentOutPatchDirectAccountDataPatch s) v (listening s) (trace s).

Definition set_listening (v : bool) (s : DMRoomMap) :=
  mkDMRoomMap (roomToUser s) (userToRooms s)
              (hasSentOutPatchDirectAccountDataPatch s) (mDirectEvent s) v (trace s).

Definition emit (e : Effect) (s : DMRoomMap) :=
  mkDMRoomMap (roomToUser s) (userToRooms s)
              (hasSentOutPatchDirectAccountDataPatch s) (mDirectEvent s)
              (listening s) (trace s ++ [e]).

(** Methods: state in, result and state out. *)
Definition M (A : Type) := DMRoomMap -> A * DMRoomMap.

Definition ret (A : Type) (x : A) : M A := fun s => (x, s).
Definition bind (A B : Type) (m : M A) (f : A -> M B) : M B :=
  fun s => let (x, s') := m s in f x s'.

Notation "x <- m ;; k" := (bind m (fun x => k))
  (at level 61, m at next level, right associativity).

Fixpoint mapM (A B : Type) (f : A -> M B) (l : list A) : M (list B) :=
  match l with
  | [] => ret []
  | x :: rest => y <- f x ;; ys <- mapM f rest ;; ret (y :: ys)
  end.

Definition warn_text : string :=
  "Invalid m.direct account data detected (self-chats that shouldn't be), patching it up.".

(** ** The class *)

Section Methods.

(** [this.matrixClient], and the client [MatrixClientPeg.get()] returns. *)
Variable matrixClient : MatrixClient.
Variable peg : MatrixClient.

(** [new DMRoomMap(matrixClient)].  [getAccountData(...)?.getContent() ?? {}]
    is the empty object when there is no such event. *)
Definition constructor : DMRoomMap :=
  let mDirectEvent :=
    match getAccountData matrixClient EventType_Direct with
    | Some ev => getContent ev
    | None => []
    end in
  mkDMRoomMap None None false (obj_copy mDirectEvent) false [].

(** The arrow function inside [patchUpSelfDMs]: the reassignment a room
    of the own list gives rise to, if any. *)
Definition guessed (myUserId : string) (roomId : string)
  : option (string * string) :=
  match getRoom matrixClient roomId with
  | Some room =>
      match guessDMUserId room with
      | Some userId =>
          if truthy userId && negb (String.eqb userId myUserId)
          then Some (userId, roomId) else None
      | None => None
      end
  | None => None
  end.

(** The body of the [forEach] in [patchUpSelfDMs]. *)
Definition reassign (userToRooms : DirectMap) (ids : string * string)
  : DirectMap :=
  let (userId, roomId) := ids in
  match obj_get userId userToRooms with
  | None => obj_set userId [roomId] userToRooms
  | Some roomIds => obj_set userId (uniq (roomIds ++ [roomId])) userToRooms
  end.

(** [patchUpSelfDMs(userToRooms)]: the object is mutated in place, so the
    map after the call is returned next to the boolean. *)
Definition patchUpSelfDMs (userToRooms : DirectMap) : bool * DirectMap :=
  let myUserId := getUserId matrixClient in
  match obj_get myUserId userToRooms with
  | Some selfRoomIds =>
      let guessedUserIdsThatChanged := map_defined (guessed myUserId) selfRoomIds in
      if Nat.eqb (List.length guessedUserIdsThatChanged) 0 then (false, userToRooms)
      else
        let kept :=
          filter (fun roomId =>
                    negb (existsb (fun ids => String.eqb (snd ids) roomId)
                                  guessedUserIdsThatChanged))
                 selfRoomIds in
        (true,
         fold_left reassign guessedUserIdsThatChanged
                   (obj_set myUserId kept userToRooms))
  | None => (false, userToRooms)
  end.

(** [getUserToRooms()].  [userToRooms] is [this.mDirectEvent] itself, not
    a copy: what [patchUpSelfDMs] does to it is done to [mDirectEvent], and
    the cached index is the same object. *)
Definition getUserToRooms : M DirectMap := fun s =>
  match userToRooms s with
  | Some cached => (cached, s)
  | None =>
      let userToRooms := mDirectEvent s in
      let myUserId := getUserId matrixClient in
      match obj_get myUserId userToRooms with
      | Some (_ :: _) =>
          let (neededPatching, patched) := patchUpSelfDMs userToRooms in
          let s1 := emit (LoggerWarn warn_text) (set_mDirectEvent patched s) in
          let s2 :=
            if neededPatching && negb (hasSentOutPatchDirectAccountDataPatch s1)
            then emit (SetAccountData EventType_Direct patched) (set_hasSent true s1)
            else s1 in
          (patched, set_userToRooms (Some patched) s2)
      | _ => (userToRooms, set_userToRooms (Some userToRooms) s)
      end
  end.

(** [getDMRoomsForUserId(userId)]: an array, even an empty one, is truthy,
    so [|| []] only replaces [undefined]. *)
Definition getDMRoomsForUserId (userId : string) : M (list string) :=
  u <- getUserToRooms ;;
  ret (match obj_get userId u with Some rooms => rooms | None => [] end).

(** [populateRoomToUser()].  The keys are those of the object
    [getUserToRooms()] returns, and [this.userToRooms[user]] is read back for
    each of them, so the lookup always finds an array: the branch [None] is
    never taken. *)
Definition populateRoomToUser : M unit := fun s =>
  let (u, s1) := getUserToRooms (set_roomToUser (Some []) s) in
  let r2u :=
    fold_left
      (fun acc user =>
         match obj_get user u with
         | Some rooms => fold_left (fun acc' roomId => obj_set roomId user acc') rooms acc
         | None => acc
         end)
      (obj_keys u) [] in
  (tt, set_roomToUser (Some r2u) s1).

(** [getUserIdForRoomId(roomId)].  After [populateRoomToUser()] the field
    [roomToUser] is an object: the last branch is never taken. *)
Definition getUserIdForRoomId (roomId : string) : M (option string) := fun s =>
  let s1 := match roomToUser s with
            | None => snd (populateRoomToUser s)
            | Some _ => s
            end in
  match roomToUser s1 with
  | Some r2u =>
      match obj_get roomId r2u with
      | None =>
          match getRoom matrixClient roomId with
          | Some room => (getDMInviter room, s1)
          | None => (None, s1)
          end
      | Some user => (Some user, s1)
      end
  | None => (None, s1)
  end.

(** The [for] loop of [getDMRoomForIdentifiers] over [ids[1]], [ids[2]], ... *)
Fixpoint narrow (rest : list string) (commonRooms : list string) : M (list string) :=
  match rest with
  | [] => ret commonRooms
  | id :: rest' =>
      userRooms <- getDMRoomsForUserId id ;;
      narrow rest' (filter (fun r => includes userRooms r) commonRooms)
  end.

(** [getDMRoomForIdentifiers(ids)].  [ids[0]] of an empty array is
    [undefined], which reads the property named "undefined". *)
Definition getDMRoomForIdentifiers (ids : list string) : M (option Room) :=
  first <- getDMRoomsForUserId (nth 0 ids "undefined") ;;
  commonRooms <- narrow (tl ids) first ;;
  let joinedRooms :=
    map_defined
      (fun r => match getRoom peg r with
                | Some room =>
                    if String.eqb (getMyMembership room) "join" then Some room else None
                | None => None
                end)
      commonRooms in
  ret (hd_error joinedRooms).

(** [getUniqueRoomsWithIndividuals()]. *)
Definition getUniqueRoomsWithIndividuals : M (JsObj.t Room) := fun s =>
  match roomToUser s with
  | None => ([], s)
  | Some r2u =>
      let (entries, s1) :=
        mapM (fun r => userId <- getUserIdForRoomId r ;;
                       ret (userId, getRoom matrixClient r))
             (obj_keys r2u) s in
      let kept :=
        map_defined
          (fun e : option string * option Room =>
             match e with
             | (Some userId, Some room) =>
                 if truthy userId
                    && Nat.eqb (getInvitedAndJoinedMemberCount room) 2
                 then Some (userId, room) else None
             | _ => None
             end)
          entries in
      (fold_left (fun obj r => obj_set (fst r) (snd r) obj) kept [], s1)
  end.

(** [getRoomIds()]: reads the raw [mDirectEvent] only. *)
Definition getRoomIds (s : DMRoomMap) : list string :=
  fold_left (fun prevRoomIds roomIds => fold_left set_add roomIds prevRoomIds)
            (obj_values (mDirectEvent s)) [].

(** [onAccountData(ev)]. *)
Definition onAccountData (ev : MatrixEvent) (s : DMRoomMap) : DMRoomMap :=
  if String.eqb (getType ev) EventType_Direct
  then set_roomToUser None
         (set_userToRooms None (set_mDirectEvent (obj_copy (getContent ev)) s))
  else s.

(** [start()] and [stop()]; [listening] records whether [onAccountData] is
    registered with the client. *)
Definition start : M unit := fun s =>
  let (_, s1) := populateRoomToUser s in (tt, set_listening true s1).

Definition stop : M unit := fun s => (tt, set_listening false s).

End Methods.

(** ** Reading the class *)

(** The rooms a list of reassignments gives to [userId], in order. *)
Definition reassigned_to (userId : string) (changed : list (string * string))
  : list string :=
  map snd (filter (fun ids => String.eqb (fst ids) userId) changed).

(** The reassignments [patchUpSelfDMs] finds in a map:
    [guessedUserIdsThatChanged], empty when the user has no own entry. *)
Definition changes (c : MatrixClient) (m : DirectMap) : list (string * string) :=
  match obj_get (getUserId c) m with
  | Some selfRoomIds => map_defined (guessed c (getUserId c)) selfRoomIds
  | None => []
  end.

(** The rooms that stay in the own list when [patchUpSelfDMs] repairs. *)
Definition kept_of (c : MatrixClient) (m : DirectMap) (selfRoomIds : list string)
  : list string :=
  filter (fun roomId => negb (existsb (fun ids => String.eqb (snd ids) roomId) (changes c m)))
         selfRoomIds.

(** [userToRooms[userId] || []]. *)
Definition rooms_of (m : DirectMap) (userId : string) : list string :=
  match obj_get userId m with Some rooms => rooms | None => [] end.

(** The user [populateRoomToUser] leaves for a room: each key of the index
    in turn overwrites the entry of every room of its list, so the last key
    whose list holds the room stays. *)
Definition last_lister (u : DirectMap) (roomId : string) : option string :=
  fold_left (fun found user => if includes (rooms_of u user) roomId then Some user else found)
            (obj_keys u) None.

(** The [is_direct] hint of an invite: [room.getDMInviter()], if the session
    has the room. *)
Definition invite_hint (c : MatrixClient) (roomId : string) : option string :=
  match getRoom c roomId with
  | Some room => getDMInviter room
  | None => None
  end.

(** The rooms all of [ids] share, in the order of the first list. *)
Definition shared_by (rooms : string -> list string) (ids : list string) : list string :=
  filter (fun r => forallb (fun id => includes (rooms id) r) (tl ids))
         (rooms (nth 0 ids "undefined")).

(** A room object that exists and reports local membership "join". *)
Definition joined (c : MatrixClient) (r : string) : option Room :=
  match getRoom c r with
  | Some room => if String.eqb (getMyMembership room) "join" then Some room else None
  | None => None
  end.

(** A room object that exists and counts exactly two invited or joined
    members. *)
Definition is_pair (c : MatrixClient) (r : string) : Prop :=
  exists room, getRoom c r = Some room /\ getInvitedAndJoinedMemberCount room = 2.

(** ** A life of one instance *)

(** What can happen to an instance: its public methods are called, and the
    client emits [ClientEvent.AccountData], which reaches [onAccountData]
    while the listener is registered. *)
Inductive Action :=
| CallStart
| CallStop
| EmitAccountData (ev : MatrixEvent)
| CallGetDMRoomsForUserId (userId : string)
| CallGetDMRoomForIdentifiers (ids : list string)
| CallGetUserIdForRoomId (roomId : string)
| CallGetUniqueRoomsWithIndividuals
| CallGetRoomIds.

(** The session as it is when an action happens: rooms come and go between
    actions. *)
Record Moment := mkMoment {
  now_client : MatrixClient;
  now_peg : MatrixClient;
  action : Action
}.

Definition step (s : DMRoomMap) (m : Moment) : DMRoomMap :=
  let c := now_client m in
  match action m with
  | CallStart => snd (start c s)
  | CallStop => snd (stop s)
  | EmitAccountData ev => if listening s then onAccountData ev s else s
  | CallGetDMRoomsForUserId u => snd (getDMRoomsForUserId c u s)
  | CallGetDMRoomForIdentifiers ids => snd (getDMRoomForIdentifiers c (now_peg m) ids s)
  | CallGetUserIdForRoomId r => snd (getUserIdForRoomId c r s)
  | CallGetUniqueRoomsWithIndividuals => snd (getUniqueRoomsWithIndividuals c s)
  | CallGetRoomIds => s
  end.

Definition run (s : DMRoomMap) (l : list Moment) : DMRoomMap := fold_left step l s.

(** ** The shared instance of a process *)

(** [DMRoomMap.sharedInstance], with the calls made by the instances it has
    replaced. *)
Record Process := mkProcess {
  sharedInstance : option DMRoomMap;
  history : list Effect
}.

Definition process_trace (p : Process) : list Effect :=
  history p ++ match sharedInstance p with Some s => trace s | None => [] end.

(** [DMRoomMap.makeShared()]. *)
Definition makeShared (peg : MatrixClient) (p : Process) : Process :=
  mkProcess (Some (constructor peg)) (process_trace p).

(** A method call on [DMRoomMap.shared()]. *)
Definition onShared (peg : MatrixClient) (a : Action) (p : Process) : Process :=
  match sharedInstance p with
  | Some s => mkProcess (Some (step s (mkMoment peg peg a))) (history p)
  | None => p
  end.

(** What happens in a process: the shared instance is made, again or for
    the first time, or one of its methods is called.  The session is the
    same throughout: a write-back that fails leaves the account data as it
    was. *)
Inductive ProcessAction :=
| CallMakeShared
| CallOnShared (a : Action).

Definition process_step (peg : MatrixClient) (p : Process) (a : ProcessAction) : Process :=
  match a with
  | CallMakeShared => makeShared peg p
  | CallOnShared a => onShared peg a p
  end.

Definition process_run (peg : MatrixClient) (l : list ProcessAction) : Process :=
  fold_left (process_step peg) l (mkProcess None []).

(** What a method may do to the correction flag and to the write-backs made
    so far: nothing, or raise the flag and make one write-back. *)
Definition write_backs (s : DMRoomMap) : list Effect := filter is_write (trace s).

Definition flag_step (s s' : DMRoomMap) : Prop :=
  (hasSentOutPatchDirectAccountDataPatch s' = hasSentOutPatchDirectAccountDataPatch s /\
   write_backs s' = write_backs s) \/
  (hasSentOutPatchDirectAccountDataPatch s = false /\
   hasSentOutPatchDirectAccountDataPatch s' = true /\
   exists w, write_backs s' = write_backs s ++ [w]).

(** The flag tells whether the one write-back has been made. *)
Definition flag_counts (s : DMRoomMap) : Prop :=
  List.length (write_backs s) =
  if hasSentOutPatchDirectAccountDataPatch s then 1 else 0.

(** ** Untyped payloads *)

(** The type [{ [key: string]: string[] }] of the content is not checked when
    the program runs: an event can carry any JSON value under a key.  This
    module evaluates the constructor and [getRoomIds] on such content. *)
Module Raw.

(** A value inside an array: primitives compare by value in a [Set], nested
    arrays and objects by identity, and two of them from a parsed payload are
    never the same object. *)
Inductive atom :=
| AUndefined
| ANull
| ABool (b : bool)
| ANum (n : nat)
| AStr (s : string)
| ARef.

Inductive value :=
| VAtom (a : atom)
| VArr (elements : list atom).

Definition content := JsObj.t value.

Inductive completion (A : Type) :=
| Normal (a : A)
| TypeError.
Arguments TypeError {A}.

Definition atom_eqb (a b : atom) : bool :=
  match a, b with
  | AUndefined, AUndefined => true
  | ANull, ANull => true
  | ABool x, ABool y => Bool.eqb x y
  | ANum x, ANum y => Nat.eqb x y
  | AStr x, AStr y => String.eqb x y
  | _, _ => false
  end.

Definition set_add (s : list atom) (x : atom) : list atom :=
  if existsb (atom_eqb x) s then s else s ++ [x].

(** [this.mDirectEvent] after [new DMRoomMap(matrixClient)], from the content
    of the [m.direct] event if the client has one. *)
Definition constructor (accountData : option content) : content :=
  match accountData with
  | Some c => obj_copy c
  | None => []
  end.

(** [getRoomIds()]: [roomIds.forEach] exists on arrays only. *)
Fixpoint reduce (values : list value) (prevRoomIds : list atom)
  : completion (list atom) :=
  match values with
  | [] => Normal prevRoomIds
  | VArr roomIds :: rest => reduce rest (fold_left set_add roomIds prevRoomIds)
  | VAtom _ :: _ => TypeError
  end.

Definition getRoomIds (mDirectEvent : content) : completion (list atom) :=
  reduce (obj_values mDirectEvent) [].

(** A typed map seen as content. *)
Definition of_typed (m : DirectMap) : content :=
  map (fun kv => (fst kv, VArr (map AStr (snd kv)))) m.

End Raw.

(** ** Sample sessions *)

Module Sample.

Definition me : string := "@me:example.org".
Definition alice : string := "@alice:example.org".
Definition bob : string := "@bob:example.org".
Definition r1 : string := "!r1:example.org".
Definition r2 : string := "!r2:example.org".
Definition r3 : string := "!r3:example.org".

(** A session of [me] with the given rooms and [m.direct] content. *)
Definition session (rooms : JsObj.t Room) (direct : option DirectMap) : MatrixClient :=
  mkClient me
           (fun roomId => obj_get roomId rooms)
           (fun eventType =>
              if String.eqb eventType EventType_Direct
              then option_map (mkEvent EventType_Direct) direct
              else None).

(** A joined room of two members, with the given guess for the other user. *)
Definition pair_room (id guess : string) : Room :=
  mkRoom id (Some guess) None "join" 2.

(** A room [me] was invited to and has not joined, of three members. *)
Definition invite_room (id inviter : string) : Room :=
  mkRoom id (Some inviter) (Some inviter) "invite" 3.

(** [r1] is listed under [me], and the guess for it is [alice]. *)
Definition misfiled : MatrixClient :=
  session [(r1, pair_room r1 alice)] (Some [(me, [r1]); (bob, [r2])]).

(** [r1] is listed under [me], and it is a chat of [me] with themselves:
    the guess is [me]. *)
Definition notes : MatrixClient :=
  session [(r1, pair_room r1 me)] (Some [(me, [r1])]).

(** No [m.direct] account data at all. *)
Definition blank : MatrixClient := session [] None.

(** [alice] has two rooms of two members; [r3], under [bob], has three. *)
Definition two_with_alice : MatrixClient :=
  session [(r1, pair_room r1 alice); (r2, pair_room r2 alice); (r3, invite_room r3 bob)]
          (Some [(alice, [r1; r2]); (bob, [r3])]).

(** [r1] is listed under [alice] and under [bob]. *)
Definition shared_room : MatrixClient :=
  session [(r1, pair_room r1 alice)] (Some [(alice, [r1]); (bob, [r1])]).

(** [alice]: [r1], [r2]; [bob]: [r2], [r3]; [r2] is joined, [r3] is an
    invite. *)
Definition common : MatrixClient :=
  session [(r2, pair_room r2 alice); (r3, invite_room r3 bob)]
          (Some [(alice, [r1; r2]); (bob, [r2; r3])]).

End Sample.

(** ** Further readings of the class *)

(** What [populateRoomToUser] leaves in [roomToUser] for a User->Rooms
    index. *)
Definition inverted (u : DirectMap) : JsObj.t string :=
  fold_left
    (fun acc user =>
       match obj_get user u with
       | Some rooms => fold_left (fun acc' roomId => obj_set roomId user acc') rooms acc
       | None => acc
       end)
    (obj_keys u) [].

(** A moment that is not the notification of an [m.direct] event. *)
Definition quiet (m : Moment) : bool :=
  match action m with
  | EmitAccountData ev => negb (String.eqb (getType ev) EventType_Direct)
  | _ => true
  end.

(** The entry of [getUniqueRoomsWithIndividuals] for a room of the index:
    the user and the room object, when the filter keeps them. *)
Definition individual (c : MatrixClient) (r2u : JsObj.t string) (r : string)
  : option (string * Room) :=
  match obj_get r r2u, getRoom c r with
  | Some userId, Some room =>
      if truthy userId && Nat.eqb (getInvitedAndJoinedMemberCount room) 2
      then Some (userId, room) else None
  | _, _ => None
  end.

(** ** Invariants of an instance *)

(** The derived indexes follow the stored map: User->Rooms, when built, is
    the stored map, and Room->User, when built, is its inversion. *)
Definition consistent (s : DMRoomMap) : Prop :=
  (forall m, userToRooms s = Some m -> m = mDirectEvent s) /\
  (forall r2u, roomToUser s = Some r2u ->
               userToRooms s = Some (mDirectEvent s) /\ r2u = inverted (mDirectEvent s)) /\
  NoDup (obj_keys (mDirectEvent s)).

(** Two states with the same indexes, map, calls made and flag. *)
Definition same_index (s s' : DMRoomMap) : Prop :=
  userToRooms s' = userToRooms s /\
  roomToUser s' = roomToUser s /\
  mDirectEvent s' = mDirectEvent s /\
  trace s' = trace s /\
  hasSentOutPatchDirectAccountDataPatch s' = hasSentOutPatchDirectAccountDataPatch s.

(** Both indexes built, Room->User from User->Rooms. *)
Definition built (s : DMRoomMap) : Prop :=
  exists m, userToRooms s = Some m /\ roomToUser s = Some (inverted m).

Module MoreSamples.

(** [r3] is a pending invite from [bob] that the Direct Map does not list. *)
Definition pending : MatrixClient :=
  Sample.session [(Sample.r3, Sample.invite_room Sample.r3 Sample.bob)]
                 (Some [(Sample.alice, [Sample.r1])]).

(** [r1] is listed under [me] and is a chat of [me] with themselves; [r2] is
    listed under [me] and the guess for it is [alice]. *)
Definition mixed : MatrixClient :=
  Sample.session [(Sample.r1, Sample.pair_room Sample.r1 Sample.me);
                  (Sample.r2, Sample.pair_room Sample.r2 Sample.alice)]
                 (Some [(Sample.me, [Sample.r1; Sample.r2])]).

End MoreSamples.

(** ** The leave-space dialog *)

(** [isOnlyAdmin] and the warnings of [LeaveSpaceDialog].  What the dialog
    reads from a room: its joined members, the user of its client and its
    join rule.  A power level is a number; the code only compares it with
    100. *)
Module LeaveSpace.

Record RoomMember := mkMember {
  userId : string;
  powerLevelNorm : QArith_base.Q
}.

Record Room := mkRoom {
  roomId : string;
  getJoinedMembers : list RoomMember;
  (* room.client.credentials.userId *)
  credentials_userId : option string;
  getJoinRule : string
}.

Definition hundred : QArith_base.Q := QArith_base.Qmake (BinInt.Z.of_nat 100) BinNums.xH.

(** [member.userId !== room.client.credentials.userId]. *)
Definition is_other (room : Room) (member : RoomMember) : bool :=
  match credentials_userId room with
  | Some me => negb (String.eqb (userId member) me)
  | None => true
  end.

Definition isOnlyAdmin (room : Room) : bool :=
  negb (existsb
          (fun member =>
             is_other room member
             && QArith_base.Qeq_bool (powerLevelNorm member) hundred)
          (getJoinedMembers room)).

Section Dialog.

(** The translation function and [JoinRule.Public]. *)
Variable _t : string -> string.
Variable JoinRule_Public : string.

Definition rejoinWarning (space : Room) : option string :=
  if negb (String.eqb (getJoinRule space) JoinRule_Public)
  then Some (_t "You won't be able to rejoin unless you are re-invited.")
  else None.

Definition onlyAdminWarning (space : Room) (roomsToLeave : list Room) : option string :=
  if isOnlyAdmin space
  then Some (_t "You're the only admin of this space. Leaving it will mean no one has control over it.")
  else
    let numChildrenOnlyAdminIn := List.length (filter isOnlyAdmin roomsToLeave) in
    if Nat.ltb 0 numChildrenOnlyAdminIn
    then Some (_t "You're the only admin of some of the rooms or spaces you wish to leave. Leaving them will leave them without any admins.")
    else None.

End Dialog.

(** Sample rooms: [me] with an admin [boss], and [me] alone. *)
Definition admin (u : string) : RoomMember := mkMember u hundred.
Definition plain (u : string) : RoomMember :=
  mkMember u (QArith_base.Qmake (BinInt.Z.of_nat 0) BinNums.xH).
Definition with_boss : Room :=
  mkRoom "!space:example.org" [plain "@me:example.org"; admin "@boss:example.org"]
         (Some "@me:example.org") "invite".
Definition alone : Room :=
  mkRoom "!child:example.org" [plain "@me:example.org"] (Some "@me:example.org") "public".

End LeaveSpace.

(** ** The passphrase field *)

(** The functions [PassphraseField] gives to [withValidation]: the derived
    data, the tests of the two rules and their messages. *)
Module PassphraseField.

Record Feedback := mkFeedback {
  warning : string;
  suggestions : list string
}.

Record ZXCVBNResult := mkResult {
  score : nat;
  feedback : Feedback
}.

Record Props := mkProps {
  minScore : nat;
  labelEnterPassword : string;
  labelStrongPassword : string;
  labelAllowedButUnsafe : string
}.

Section Rules.

(** The translation function, [scorePassword] of the password scorer, the
    value of [SdkConfig.get("dangerously_allow_unsafe_and_insecure_passwords")]
    and [this.props]. *)
Variable _t : string -> string.
Variable scorePassword : string -> option ZXCVBNResult.
Variable allowUnsafe : bool.
Variable props : Props.

(** [description]: the value of the progress bar, out of 4. *)
Definition description (complexity : option ZXCVBNResult) : nat :=
  match complexity with
  | Some c => score c
  | None => 0
  end.

Definition deriveData (value : string) : option ZXCVBNResult :=
  if negb (truthy value) then None else scorePassword value.

(** Rule "required". *)
Definition required_test (value : string) (allowEmpty : bool) : bool :=
  allowEmpty || truthy value.

Definition required_invalid : string := _t (labelEnterPassword props).

(** Rule "complexity". *)
Definition complexity_test (value : string) (complexity : option ZXCVBNResult) : bool :=
  match truthy value, complexity with
  | true, Some c =>
      let safe := Nat.leb (minScore props) (score c) in
      allowUnsafe || safe
  | _, _ => false
  end.

Definition complexity_valid (complexity : option ZXCVBNResult) : string :=
  match complexity with
  | Some c =>
      if Nat.leb (minScore props) (score c)
      then _t (labelStrongPassword props)
      else _t (labelAllowedButUnsafe props)
  | None => _t (labelAllowedButUnsafe props)
  end.


End Rules.

End PassphraseField.

(** * Properties *)

(** ** Strings and arrays *)

Lemma eqb_false_neq (a b : string) : String.eqb a b = false <-> a <> b.
Proof. apply String.eqb_neq. Qed.

Lemma includes_In (a : list string) (x : string) :
  includes a x = true <-> In x a.
Proof.
  unfold includes. rewrite existsb_exists. split.
  - intros [y [Hy He]]. apply String.eqb_eq in He. now subst.
  - intros H. exists x. split; [assumption | apply String.eqb_refl].
Qed.

Lemma includes_false (a : list string) (x : string) :
  includes a x = false <-> ~ In x a.
Proof.
  rewrite <- includes_In. destruct (includes a x); split; congruence.
Qed.

Lemma uniq_from_In (a seen : list string) (x : string) :
  In x (uniq_from seen a) <-> In x a /\ ~ In x seen.
Proof.
  revert seen. induction a as [|y a IH]; intros seen; simpl.
  - tauto.
  - destruct (includes seen y) eqn:E.
    + apply includes_In in E. rewrite IH. split.
      * tauto.
      * intros [[->|H] Hn]; tauto.
    + apply includes_false in E. simpl. rewrite IH. simpl. split.
      * intros [->|[H Hn]]; [tauto|]. split; [tauto|]. intros Hs. apply Hn. now right.
      * intros [[->|H] Hn]; [now left|].
        destruct (string_dec y x) as [->|Hne]; [now left|right].
        split; [assumption|]. intros [?|?]; tauto.
Qed.

Lemma uniq_from_NoDup (a seen : list string) : NoDup (uniq_from seen a).
Proof.
  revert seen. induction a as [|y a IH]; intros seen; simpl.
  - constructor.
  - destruct (includes seen y) eqn:E; [apply IH|].
    constructor; [|apply IH].
    rewrite uniq_from_In. intros [_ Hn]. apply Hn. now left.
Qed.

Lemma uniq_from_idem_app (a b seen : list string) :
  uniq_from seen (uniq_from seen a ++ b) = uniq_from seen (a ++ b).
Proof.
  revert seen. induction a as [|y a IH]; intros seen; simpl.
  - reflexivity.
  - destruct (includes seen y) eqn:E.
    + apply IH.
    + simpl. rewrite E. f_equal. apply IH.
Qed.

Lemma uniq_In (a : list string) (x : string) : In x (uniq a) <-> In x a.
Proof. unfold uniq. rewrite uniq_from_In. simpl. tauto. Qed.

Lemma uniq_NoDup (a : list string) : NoDup (uniq a).
Proof. apply uniq_from_NoDup. Qed.

Lemma uniq_idem_app (a b : list string) : uniq (uniq a ++ b) = uniq (a ++ b).
Proof. apply uniq_from_idem_app. Qed.

Lemma set_add_In (s : list string) (x y : string) :
  In y (set_add s x) <-> In y s \/ y = x.
Proof.
  unfold set_add. destruct (includes s x) eqn:E.
  - apply includes_In in E. split; [tauto|]. intros [H| ->]; assumption.
  - rewrite in_app_iff. simpl. split; intros [H|H]; auto.
    + destruct H as [H|[]]; auto.
Qed.

Lemma fold_set_add_In (a s : list string) (y : string) :
  In y (fold_left set_add a s) <-> In y s \/ In y a.
Proof.
  revert s. induction a as [|x a IH]; intros s; simpl.
  - tauto.
  - rewrite IH, set_add_In. split; intros H; intuition (subst; auto).
Qed.

Lemma map_defined_In (A B : Type) (f : A -> option B) (l : list A) (y : B) :
  In y (map_defined f l) <-> exists x, In x l /\ f x = Some y.
Proof.
  induction l as [|a l IH]; simpl.
  - split; [tauto | intros [x [[] _]]].
  - destruct (f a) eqn:E; simpl; rewrite IH; split.
    + intros [->|[x [Hx Hf]]]; [exists a; auto | exists x; auto].
    + intros [x [[->|Hx] Hf]]; [left; congruence | right; exists x; auto].
    + intros [x [Hx Hf]]. exists x; auto.
    + intros [x [[->|Hx] Hf]]; [congruence | exists x; auto].
Qed.

(** ** Objects *)

Section ObjFacts.
Variable V : Type.
Implicit Types (o : JsObj.t V) (k : string) (v : V).

Lemma obj_get_set_eq k v o : obj_get k (obj_set k v o) = Some v.
Proof.
  induction o as [|[k' v'] o IH]; simpl.
  - now rewrite String.eqb_refl.
  - destruct (String.eqb k k') eqn:E; simpl; rewrite E; auto.
Qed.

Lemma obj_get_set_neq k k' v o :
  k <> k' -> obj_get k' (obj_set k v o) = obj_get k' o.
Proof.
  intros Hne. induction o as [|[k1 v1] o IH]; simpl.
  - destruct (String.eqb k' k) eqn:E; [apply String.eqb_eq in E; congruence | reflexivity].
  - destruct (String.eqb k k1) eqn:E; simpl.
    + apply String.eqb_eq in E. subst k1.
      destruct (String.eqb k' k) eqn:E'; [apply String.eqb_eq in E'; congruence | reflexivity].
    + now rewrite IH.
Qed.

Lemma obj_get_set k k' v o :
  obj_get k' (obj_set k v o) = if String.eqb k' k then Some v else obj_get k' o.
Proof.
  destruct (String.eqb k' k) eqn:E.
  - apply String.eqb_eq in E. subst. apply obj_get_set_eq.
  - apply String.eqb_neq in E. apply obj_get_set_neq. congruence.
Qed.

Lemma obj_get_None_keys k o : obj_get k o = None <-> ~ In k (obj_keys o).
Proof.
  induction o as [|[k' v'] o IH]; simpl.
  - tauto.
  - destruct (String.eqb k k') eqn:E.
    + apply String.eqb_eq in E. subst. split; [discriminate | tauto].
    + apply String.eqb_neq in E. rewrite IH. split; [intros H [?|?]; [congruence|tauto] | tauto].
Qed.

Lemma obj_get_Some_In k v o : obj_get k o = Some v -> In (k, v) o.
Proof.
  induction o as [|[k' v'] o IH]; simpl; [discriminate|].
  destruct (String.eqb k k') eqn:E.
  - apply String.eqb_eq in E. intros [= ->]. subst. now left.
  - intros H. right. auto.
Qed.

Lemma obj_In_get k v o : NoDup (obj_keys o) -> In (k, v) o -> obj_get k o = Some v.
Proof.
  induction o as [|[k' v'] o IH]; simpl; [tauto|].
  intros Hnd [H|H].
  - injection H as -> ->. now rewrite String.eqb_refl.
  - inversion Hnd as [|? ? Hnin Hnd']; subst.
    destruct (String.eqb k k') eqn:E.
    + apply String.eqb_eq in E. subst k'. exfalso. apply Hnin.
      change k with (fst (k, v)). now apply in_map.
    + auto.
Qed.

Lemma obj_keys_set k v o :
  obj_keys (obj_set k v o) =
  match obj_get k o with Some _ => obj_keys o | None => obj_keys o ++ [k] end.
Proof.
  induction o as [|[k' v'] o IH]; simpl; [reflexivity|].
  destruct (String.eqb k k') eqn:E; simpl; [reflexivity|].
  rewrite IH. now destruct (obj_get k o).
Qed.

Lemma obj_set_NoDup k v o : NoDup (obj_keys o) -> NoDup (obj_keys (obj_set k v o)).
Proof.
  intros Hnd. rewrite obj_keys_set. destruct (obj_get k o) eqn:E; [assumption|].
  apply obj_get_None_keys in E.
  apply NoDup_app; [assumption | repeat constructor; simpl; tauto |].
  intros x Hx [<-|[]]. contradiction.
Qed.

Lemma obj_set_fresh k v o : obj_get k o = None -> obj_set k v o = o ++ [(k, v)].
Proof.
  induction o as [|[k' v'] o IH]; simpl; [reflexivity|].
  destruct (String.eqb k k'); [discriminate|]. intros H. now rewrite IH.
Qed.

Lemma obj_copy_from_NoDup o acc :
  NoDup (obj_keys (acc ++ o)) ->
  fold_left (fun a kv => obj_set (fst kv) (snd kv) a) o acc = acc ++ o.
Proof.
  revert acc. induction o as [|[k v] o IH]; intros acc Hnd; simpl.
  - now rewrite app_nil_r.
  - assert (Hfresh : obj_get k acc = None).
    { apply obj_get_None_keys. unfold obj_keys in *. rewrite map_app in Hnd. simpl in Hnd.
      apply NoDup_remove_2 in Hnd. rewrite in_app_iff in Hnd. tauto. }
    rewrite obj_set_fresh by assumption.
    rewrite IH; rewrite <- app_assoc; simpl; auto.
Qed.

Lemma obj_copy_NoDup_id o : NoDup (obj_keys o) -> obj_copy o = o.
Proof. intros H. unfold obj_copy. now rewrite obj_copy_from_NoDup. Qed.

Lemma obj_copy_from_keys_NoDup o acc :
  NoDup (obj_keys acc) ->
  NoDup (obj_keys (fold_left (fun a kv => obj_set (fst kv) (snd kv) a) o acc)).
Proof.
  revert acc. induction o as [|[k v] o IH]; intros acc Hnd; simpl; [assumption|].
  apply IH. now apply obj_set_NoDup.
Qed.

Lemma obj_copy_NoDup o : NoDup (obj_keys (obj_copy o)).
Proof. apply obj_copy_from_keys_NoDup. constructor. Qed.

End ObjFacts.

(** ** The repair pass *)

Section Repair.
Variable c : MatrixClient.
Let me := getUserId c.

Lemma guessed_spec (roomId : string) (ids : string * string) :
  guessed c me roomId = Some ids ->
  snd ids = roomId /\ fst ids <> me /\ fst ids <> "" /\
  exists room, getRoom c roomId = Some room /\ guessDMUserId room = Some (fst ids).
Proof.
  unfold guessed. destruct (getRoom c roomId) as [room|]; [|discriminate].
  destruct (guessDMUserId room) as [u|] eqn:Hg; [|discriminate].
  destruct (truthy u) eqn:Ht; simpl; [|discriminate].
  destruct (String.eqb u me) eqn:Hu; simpl; [discriminate|].
  intros [= <-]. simpl. split; [reflexivity|]. split; [|split].
  - now apply String.eqb_neq.
  - unfold truthy in Ht. apply negb_true_iff in Ht. now apply String.eqb_neq.
  - eauto.
Qed.

Lemma guessed_complete (roomId : string) (room : Room) (v : string) :
  getRoom c roomId = Some room -> guessDMUserId room = Some v ->
  v <> "" -> v <> me -> guessed c me roomId = Some (v, roomId).
Proof.
  intros Hr Hg Hne Hme. unfold guessed. rewrite Hr, Hg.
  unfold truthy. apply String.eqb_neq in Hne. apply String.eqb_neq in Hme.
  now rewrite Hne, Hme.
Qed.

Lemma changes_In (m : DirectMap) (ids : string * string) :
  In ids (changes c m) ->
  exists selfRoomIds, obj_get me m = Some selfRoomIds /\ In (snd ids) selfRoomIds /\
                      guessed c me (snd ids) = Some ids.
Proof.
  unfold changes. fold me. destruct (obj_get me m) as [self|]; [|intros []].
  rewrite map_defined_In. intros [r [Hr Hg]]. exists self. split; [reflexivity|].
  destruct (guessed_spec _ Hg) as [<- _]. auto.
Qed.

Lemma changes_not_me (m : DirectMap) : reassigned_to me (changes c m) = [].
Proof.
  unfold reassigned_to.
  assert (H : forall ids, In ids (changes c m) -> String.eqb (fst ids) me = false).
  { intros ids Hin. destruct (changes_In _ _ Hin) as [self [_ [_ Hg]]].
    apply guessed_spec in Hg. apply String.eqb_neq. tauto. }
  induction (changes c m) as [|a l IH]; simpl; [reflexivity|].
  rewrite (H a) by now left. apply IH. intros ids Hin. apply H. now right.
Qed.

Lemma reassigned_to_In (u r : string) (l : list (string * string)) :
  In r (reassigned_to u l) <-> In (u, r) l.
Proof.
  unfold reassigned_to. rewrite in_map_iff. split.
  - intros [[u' r'] [<- Hin]]. apply filter_In in Hin. simpl in *.
    destruct Hin as [Hin He]. apply String.eqb_eq in He. now subst.
  - intros Hin. exists (u, r). split; [reflexivity|]. apply filter_In.
    simpl. split; [assumption | apply String.eqb_refl].
Qed.

Lemma reassign_get_other (u : DirectMap) (k k' r : string) :
  k' <> k -> obj_get k (reassign u (k', r)) = obj_get k u.
Proof.
  intros Hne. unfold reassign. destruct (obj_get k' u); now apply obj_get_set_neq.
Qed.

Lemma reassign_get_same (u : DirectMap) (k r : string) :
  obj_get k (reassign u (k, r)) = Some (uniq (rooms_of u k ++ [r])).
Proof.
  unfold reassign, rooms_of. destruct (obj_get k u); rewrite obj_get_set_eq; reflexivity.
Qed.

Lemma reassigned_to_cons (k k' r : string) (t : list (string * string)) :
  reassigned_to k ((k', r) :: t) =
  if String.eqb k' k then r :: reassigned_to k t else reassigned_to k t.
Proof. unfold reassigned_to. simpl. now destruct (String.eqb k' k). Qed.

(** The [forEach] of the repair, seen from one key. *)
Lemma fold_reassign_get (changed : list (string * string)) (u : DirectMap) (k : string) :
  obj_get k (fold_left reassign changed u) =
  match reassigned_to k changed with
  | [] => obj_get k u
  | rs => Some (uniq (rooms_of u k ++ rs))
  end.
Proof.
  revert u. induction changed as [|[k' r] t IH]; intros u; [reflexivity|].
  cbn [fold_left]. rewrite IH, reassigned_to_cons.
  destruct (String.eqb k' k) eqn:E.
  - apply String.eqb_eq in E. subst k'.
    unfold rooms_of at 1. rewrite reassign_get_same.
    destruct (reassigned_to k t) as [|r1 rs].
    + reflexivity.
    + rewrite uniq_idem_app, <- app_assoc. reflexivity.
  - apply String.eqb_neq in E.
    unfold rooms_of. rewrite (reassign_get_other _ _ E). reflexivity.
Qed.

Lemma fold_reassign_NoDup (changed : list (string * string)) (u : DirectMap) :
  NoDup (obj_keys u) -> NoDup (obj_keys (fold_left reassign changed u)).
Proof.
  revert u. induction changed as [|[k r] t IH]; intros u Hnd; simpl; [assumption|].
  apply IH. destruct (obj_get k u); now apply obj_set_NoDup.
Qed.

Lemma filter_all (A : Type) (f : A -> bool) (l : list A) :
  (forall x, In x l -> f x = true) -> filter f l = l.
Proof.
  induction l as [|a l IH]; simpl; intros H; [reflexivity|].
  rewrite H by now left. f_equal. apply IH. intros x Hx. apply H. now right.
Qed.

Lemma patchUpSelfDMs_flag (m : DirectMap) :
  fst (patchUpSelfDMs c m) = negb (Nat.eqb (List.length (changes c m)) 0).
Proof.
  unfold patchUpSelfDMs, changes. fold me.
  destruct (obj_get me m) as [self|]; [|reflexivity].
  destruct (Nat.eqb _ 0); reflexivity.
Qed.

Lemma patchUpSelfDMs_unchanged (m : DirectMap) :
  changes c m = [] -> patchUpSelfDMs c m = (false, m).
Proof.
  unfold patchUpSelfDMs, changes. fold me.
  destruct (obj_get me m) as [self|]; [|reflexivity].
  intros ->. reflexivity.
Qed.

(** The own list after the repair. *)
Lemma patchUpSelfDMs_get_me (m : DirectMap) (selfRoomIds : list string) :
  obj_get me m = Some selfRoomIds ->
  obj_get me (snd (patchUpSelfDMs c m)) = Some (kept_of c m selfRoomIds).
Proof.
  intros Hself. unfold kept_of.
  destruct (changes c m) as [|ch chs] eqn:Hch.
  - rewrite patchUpSelfDMs_unchanged by assumption. simpl.
    rewrite filter_all; [assumption | reflexivity].
  - pose proof (changes_not_me m) as Hnm. rewrite Hch in Hnm.
    unfold patchUpSelfDMs. fold me. rewrite Hself.
    unfold changes in Hch. fold me in Hch. rewrite Hself in Hch. rewrite Hch.
    cbn [List.length Nat.eqb snd]. rewrite fold_reassign_get, Hnm. apply obj_get_set_eq.
Qed.

(** Every other list after the repair. *)
Lemma patchUpSelfDMs_get_other (m : DirectMap) (k : string) :
  k <> me ->
  obj_get k (snd (patchUpSelfDMs c m)) =
  match reassigned_to k (changes c m) with
  | [] => obj_get k m
  | rs => Some (uniq (rooms_of m k ++ rs))
  end.
Proof.
  intros Hk. destruct (changes c m) as [|ch chs] eqn:Hch.
  - rewrite patchUpSelfDMs_unchanged by assumption. reflexivity.
  - unfold patchUpSelfDMs. fold me. unfold changes in Hch. fold me in Hch.
    destruct (obj_get me m) as [self|]; [|discriminate].
    rewrite Hch. cbn [List.length Nat.eqb snd]. rewrite fold_reassign_get.
    unfold rooms_of. rewrite obj_get_set_neq by congruence. reflexivity.
Qed.

Lemma patchUpSelfDMs_NoDup (m : DirectMap) :
  NoDup (obj_keys m) -> NoDup (obj_keys (snd (patchUpSelfDMs c m))).
Proof.
  intros Hnd. unfold patchUpSelfDMs. fold me.
  destruct (obj_get me m) as [self|]; [|assumption].
  destruct (Nat.eqb _ 0); [assumption|]. simpl.
  apply fold_reassign_NoDup. now apply obj_set_NoDup.
Qed.

End Repair.

(** ** The repaired map, list by list *)

Section Repaired.
Variable c : MatrixClient.

Lemma kept_of_In (m : DirectMap) (selfRoomIds : list string) (r : string) :
  In r (kept_of c m selfRoomIds) <->
  In r selfRoomIds /\ forall u, ~ In (u, r) (changes c m).
Proof.
  unfold kept_of. rewrite filter_In, negb_true_iff. split; intros [Hin H]; split; auto.
  - intros u Hu. assert (E : existsb (fun ids => String.eqb (snd ids) r) (changes c m) = true).
    { apply existsb_exists. exists (u, r). split; [assumption | apply String.eqb_refl]. }
    congruence.
  - destruct (existsb _ _) eqn:E; [|reflexivity].
    apply existsb_exists in E. destruct E as [[u r'] [Hu He]].
    apply String.eqb_eq in He. simpl in He. subst r'. destruct (H u Hu).
Qed.

Lemma rooms_of_patch_me (m : DirectMap) :
  rooms_of (snd (patchUpSelfDMs c m)) (getUserId c) = kept_of c m (rooms_of m (getUserId c)).
Proof.
  unfold rooms_of at 2. destruct (obj_get (getUserId c) m) as [self|] eqn:E.
  - unfold rooms_of. now rewrite (patchUpSelfDMs_get_me c m E).
  - rewrite patchUpSelfDMs_unchanged.
    + unfold rooms_of. simpl. now rewrite E.
    + unfold changes. now rewrite E.
Qed.

Lemma rooms_of_patch_other (m : DirectMap) (k : string) :
  k <> (getUserId c) ->
  rooms_of (snd (patchUpSelfDMs c m)) k =
  match reassigned_to k (changes c m) with
  | [] => rooms_of m k
  | rs => uniq (rooms_of m k ++ rs)
  end.
Proof.
  intros Hk. unfold rooms_of at 1. rewrite patchUpSelfDMs_get_other by assumption.
  now destruct (reassigned_to k (changes c m)).
Qed.

Lemma changes_rooms_of_me (m : DirectMap) (u r : string) :
  In (u, r) (changes c m) -> In r (rooms_of m (getUserId c)) /\ u <> (getUserId c).
Proof.
  intros Hin. destruct (changes_In c _ _ Hin) as [self [Hs [Hr Hg]]].
  unfold rooms_of. rewrite Hs. split; [assumption|].
  apply guessed_spec in Hg. simpl in Hg. tauto.
Qed.

(** The repair moves rooms between lists: a room is listed after it exactly
    when it was listed before it. *)
Lemma patchUpSelfDMs_listed (m : DirectMap) (r : string) :
  (exists k, In r (rooms_of (snd (patchUpSelfDMs c m)) k)) <->
  (exists k, In r (rooms_of m k)).
Proof.
  split; intros [k Hk].
  - destruct (string_dec k (getUserId c)) as [->|Hne].
    + rewrite rooms_of_patch_me, kept_of_In in Hk. exists (getUserId c). tauto.
    + rewrite rooms_of_patch_other in Hk by assumption.
      destruct (reassigned_to k (changes c m)) as [|r1 rs] eqn:E; [eauto|].
      rewrite uniq_In, in_app_iff in Hk. destruct Hk as [Hk|Hk]; [eauto|].
      rewrite <- E in Hk. apply reassigned_to_In in Hk.
      exists (getUserId c). now apply changes_rooms_of_me with (u := k).
  - destruct (string_dec k (getUserId c)) as [->|Hne].
    + destruct (existsb (fun ids => String.eqb (snd ids) r) (changes c m)) eqn:E.
      * apply existsb_exists in E. destruct E as [[u r'] [Hu He]].
        apply String.eqb_eq in He. simpl in He. subst r'.
        exists u. destruct (changes_rooms_of_me _ _ _ Hu) as [_ Hne].
        rewrite rooms_of_patch_other by assumption.
        apply reassigned_to_In in Hu.
        destruct (reassigned_to u (changes c m)) as [|r1 rs]; [destruct Hu|].
        rewrite uniq_In, in_app_iff. now right.
      * exists (getUserId c). rewrite rooms_of_patch_me, kept_of_In. split; [assumption|].
        intros u Hu. apply Bool.not_true_iff_false in E. apply E.
        apply existsb_exists. exists (u, r). split; [assumption | apply String.eqb_refl].
    + exists k. rewrite rooms_of_patch_other by assumption.
      destruct (reassigned_to k (changes c m)) as [|r1 rs]; [assumption|].
      rewrite uniq_In, in_app_iff. now left.
Qed.

(** *** [getUserToRooms] *)

Lemma getUserToRooms_cached (s : DMRoomMap) (u : DirectMap) :
  userToRooms s = Some u -> getUserToRooms c s = (u, s).
Proof. intros H. unfold getUserToRooms. now rewrite H. Qed.

Lemma getUserToRooms_rebuild (s : DMRoomMap) :
  userToRooms s = None ->
  let r := getUserToRooms c s in
  fst r = snd (patchUpSelfDMs c (mDirectEvent s)) /\
  userToRooms (snd r) = Some (fst r) /\
  mDirectEvent (snd r) = fst r /\
  roomToUser (snd r) = roomToUser s /\
  listening (snd r) = listening s.
Proof.
  intros H. unfold getUserToRooms. rewrite H.
  destruct (obj_get (getUserId c) (mDirectEvent s)) as [[|r0 rs]|] eqn:E.
  - rewrite patchUpSelfDMs_unchanged; [simpl; auto|].
    unfold changes. now rewrite E.
  - destruct (patchUpSelfDMs c (mDirectEvent s)) as [b p]. simpl.
    destruct (b && negb (hasSentOutPatchDirectAccountDataPatch s)); simpl; auto.
  - rewrite patchUpSelfDMs_unchanged; [simpl; auto|].
    unfold changes. now rewrite E.
Qed.

Lemma getDMRoomsForUserId_rebuild (s : DMRoomMap) (u : string) :
  userToRooms s = None ->
  fst (getDMRoomsForUserId c u s) = rooms_of (snd (patchUpSelfDMs c (mDirectEvent s))) u /\
  snd (getDMRoomsForUserId c u s) = snd (getUserToRooms c s).
Proof.
  intros H. destruct (getUserToRooms_rebuild s H) as [H1 _].
  unfold getDMRoomsForUserId, bind, ret.
  destruct (getUserToRooms c s) as [m s']. simpl in *. subst m. auto.
Qed.

Lemma getDMRoomsForUserId_cached (s : DMRoomMap) (m : DirectMap) (u : string) :
  userToRooms s = Some m -> getDMRoomsForUserId c u s = (rooms_of m u, s).
Proof.
  intros H. unfold getDMRoomsForUserId, bind, ret.
  now rewrite (getUserToRooms_cached s H).
Qed.

(** What a rebuild does to the trace. *)
Lemma getUserToRooms_trace (s : DMRoomMap) :
  userToRooms s = None ->
  trace (snd (getUserToRooms c s)) =
  trace s ++
  match obj_get (getUserId c) (mDirectEvent s) with
  | Some (_ :: _) =>
      LoggerWarn warn_text ::
      (if fst (patchUpSelfDMs c (mDirectEvent s))
          && negb (hasSentOutPatchDirectAccountDataPatch s)
       then [SetAccountData EventType_Direct (snd (patchUpSelfDMs c (mDirectEvent s)))]
       else [])
  | _ => []
  end.
Proof.
  intros H. unfold getUserToRooms. rewrite H.
  destruct (obj_get (getUserId c) (mDirectEvent s)) as [[|r0 rs]|] eqn:E; simpl;
    try (now rewrite app_nil_r).
  destruct (patchUpSelfDMs c (mDirectEvent s)) as [b p]. simpl.
  destruct (b && negb (hasSentOutPatchDirectAccountDataPatch s)); simpl.
  - now rewrite <- app_assoc.
  - reflexivity.
Qed.

End Repaired.

(** ** Self-chat repair *)

(** C1.  Self-chat repair.  When the own identifier U of the user maps to a
    room R and the guess for R is another user V, then after one rebuild of
    User->Rooms the rooms of U no longer contain R and the rooms of V contain
    R: the own list keeps the rooms that were not reassigned, and the list of
    V is its former list (empty if V had none) with the rooms reassigned to V
    appended, R among them, and duplicates dropped. *)
Theorem self_chat_repair
  (c : MatrixClient) (s : DMRoomMap) (selfRoomIds : list string)
  (R V : string) (room : Room) :
  userToRooms s = None ->
  obj_get (getUserId c) (mDirectEvent s) = Some selfRoomIds ->
  In R selfRoomIds ->
  getRoom c R = Some room ->
  guessDMUserId room = Some V ->
  V <> "" ->
  V <> getUserId c ->
  let before := mDirectEvent s in
  let s1 := snd (getUserToRooms c s) in
  let roomsU := fst (getDMRoomsForUserId c (getUserId c) s1) in
  let roomsV := fst (getDMRoomsForUserId c V s1) in
  ~ In R roomsU /\
  In R roomsV /\
  NoDup roomsV /\
  roomsU = kept_of c before selfRoomIds /\
  In R (reassigned_to V (changes c before)) /\
  roomsV = uniq (rooms_of before V ++ reassigned_to V (changes c before)).
Proof.
  intros Hnull Hself HR Hroom Hguess Hne Hme before s1 roomsU roomsV.
  destruct (getUserToRooms_rebuild c s Hnull) as [Hfst [Hcache _]].
  fold s1 in Hcache. rewrite Hfst in Hcache. fold before in Hcache.
  assert (Hch : In (V, R) (changes c before)).
  { unfold changes, before. rewrite Hself. apply map_defined_In.
    exists R. split; [assumption|]. now apply guessed_complete with (room := room). }
  assert (HU : roomsU = kept_of c before selfRoomIds).
  { unfold roomsU. rewrite (getDMRoomsForUserId_cached c s1 _ Hcache). simpl.
    unfold rooms_of. now rewrite (patchUpSelfDMs_get_me c before Hself). }
  assert (Hin : In R (reassigned_to V (changes c before))) by now apply reassigned_to_In.
  assert (HV : roomsV = uniq (rooms_of before V ++ reassigned_to V (changes c before))).
  { unfold roomsV. rewrite (getDMRoomsForUserId_cached c s1 _ Hcache). simpl.
    rewrite rooms_of_patch_other by assumption.
    destruct (reassigned_to V (changes c before)); [destruct Hin | reflexivity]. }
  repeat split; try assumption.
  - rewrite HU, kept_of_In. intros [_ H]. exact (H V Hch).
  - rewrite HV, uniq_In, in_app_iff. now right.
  - rewrite HV. apply uniq_NoDup.
Qed.

Lemma self_chat_repair_witness :
  let c := Sample.misfiled in
  let s1 := snd (getUserToRooms c (constructor c)) in
  ~ In Sample.r1 (fst (getDMRoomsForUserId c Sample.me s1)) /\
  fst (getDMRoomsForUserId c Sample.alice s1) = [Sample.r1].
Proof.
  pose proof (@self_chat_repair Sample.misfiled (constructor Sample.misfiled)
                [Sample.r1] Sample.r1 Sample.alice
                (Sample.pair_room Sample.r1 Sample.alice)) as H.
  simpl. split.
  - apply H; try reflexivity; try discriminate. now left.
  - reflexivity.
Defined.

(** The rebuild that finds nothing to reassign: the map is left as it is and
    nothing is written, and the warning is logged all the same. *)
Lemma getUserToRooms_benign (c : MatrixClient) (s : DMRoomMap) (r : string) (rs : list string) :
  userToRooms s = None ->
  obj_get (getUserId c) (mDirectEvent s) = Some (r :: rs) ->
  changes c (mDirectEvent s) = [] ->
  let s' := snd (getUserToRooms c s) in
  fst (getUserToRooms c s) = mDirectEvent s /\
  mDirectEvent s' = mDirectEvent s /\
  hasSentOutPatchDirectAccountDataPatch s' = hasSentOutPatchDirectAccountDataPatch s /\
  trace s' = trace s ++ [LoggerWarn warn_text].
Proof.
  intros Hnull Hself Hch s'.
  pose proof (getUserToRooms_trace c s Hnull) as Htr. fold s' in Htr.
  rewrite Hself, (patchUpSelfDMs_unchanged c _ Hch) in Htr. simpl in Htr.
  destruct (getUserToRooms_rebuild c s Hnull) as [Hfst [_ [Hm _]]].
  fold s' in Hm. rewrite (patchUpSelfDMs_unchanged c _ Hch) in Hfst. simpl in Hfst.
  repeat split; try congruence.
  unfold s', getUserToRooms. rewrite Hnull, Hself, (patchUpSelfDMs_unchanged c _ Hch).
  reflexivity.
Qed.

(** C8.  A rebuild over a self-entry that needs no repair: the only room
    listed under the user is a chat with themselves, nothing is reassigned,
    the map is left untouched and nothing is written back, and one warning
    is logged. *)
Theorem benign_self_chat_is_logged :
  let c := Sample.notes in
  let s := constructor c in
  let s' := snd (getUserToRooms c s) in
  changes c (mDirectEvent s) = [] /\
  mDirectEvent s' = mDirectEvent s /\
  writes (trace s') = 0 /\
  trace s' = [LoggerWarn warn_text].
Proof. repeat split. Qed.

(** ** Rooms for a user *)

(** C3.  The rooms-for-user query of an index that is not built yet returns
    the list the repaired Direct Map holds for the user, as it is, and the
    empty list when the repaired map has no entry for the user; where the
    repair has nothing to reassign (in particular where the user of the
    session has no own entry) that is the list configured in the Direct Map;
    and asking again gives the same list. *)
Theorem rooms_for_user (c : MatrixClient) (s : DMRoomMap) (u : string) :
  userToRooms s = None ->
  let configured := mDirectEvent s in
  let repaired := snd (patchUpSelfDMs c configured) in
  let rooms := fst (getDMRoomsForUserId c u s) in
  (forall l, obj_get u repaired = Some l -> rooms = l) /\
  (obj_get u repaired = None -> rooms = []) /\
  (changes c configured = [] -> rooms = rooms_of configured u) /\
  (obj_get (getUserId c) configured = None -> rooms = rooms_of configured u) /\
  (u <> getUserId c -> reassigned_to u (changes c configured) = [] ->
   rooms = rooms_of configured u) /\
  fst (getDMRoomsForUserId c u (snd (getDMRoomsForUserId c u s))) = rooms.
Proof.
  intros Hnull configured repaired rooms.
  destruct (getDMRoomsForUserId_rebuild c s u Hnull) as [Hr Hs].
  fold rooms configured repaired in Hr.
  assert (Hnone : changes c configured = [] -> rooms = rooms_of configured u).
  { intros Hch. rewrite Hr. unfold repaired.
    now rewrite (patchUpSelfDMs_unchanged c _ Hch). }
  repeat split.
  - intros l Hl. rewrite Hr. unfold rooms_of. now rewrite Hl.
  - intros Hl. rewrite Hr. unfold rooms_of. now rewrite Hl.
  - exact Hnone.
  - intros Hme. apply Hnone. unfold changes. now rewrite Hme.
  - intros Hu Hre. rewrite Hr. unfold repaired.
    rewrite rooms_of_patch_other by assumption. now rewrite Hre.
  - rewrite Hs. destruct (getUserToRooms_rebuild c s Hnull) as [Hfst [Hcache _]].
    rewrite (getDMRoomsForUserId_cached c _ _ Hcache). simpl.
    rewrite Hfst. exact (eq_sym Hr).
Qed.

Lemma rooms_for_user_witness :
  let c := Sample.common in
  fst (getDMRoomsForUserId c Sample.alice (constructor c)) = [Sample.r1; Sample.r2] /\
  fst (getDMRoomsForUserId c Sample.me (constructor c)) = [].
Proof.
  pose proof (@rooms_for_user Sample.common (constructor Sample.common)) as H.
  simpl. split.
  - destruct (H Sample.alice eq_refl) as [H1 _]. apply H1. reflexivity.
  - destruct (H Sample.me eq_refl) as [_ [H2 _]]. apply H2. reflexivity.
Defined.

(** ** All room identifiers *)

Lemma reduce_set_add_In (vals : list (list string)) (acc : list string) (r : string) :
  In r (fold_left (fun prev ids => fold_left set_add ids prev) vals acc) <->
  In r acc \/ exists l, In l vals /\ In r l.
Proof.
  revert acc. induction vals as [|v vals IH]; intros acc; simpl.
  - split; [auto | intros [H|[l [[] _]]]; assumption].
  - rewrite IH, fold_set_add_In. split.
    + intros [[H|H]|[l [Hl Hr]]]; eauto.
    + intros [H|[l [[<-|Hl] Hr]]]; eauto.
Qed.

Lemma getRoomIds_In (s : DMRoomMap) (r : string) :
  In r (getRoomIds s) <-> exists kv, In kv (mDirectEvent s) /\ In r (snd kv).
Proof.
  unfold getRoomIds. rewrite reduce_set_add_In. unfold obj_values. split.
  - intros [[]|[l [Hl Hr]]]. apply in_map_iff in Hl.
    destruct Hl as [kv [<- Hkv]]. eauto.
  - intros [kv [Hkv Hr]]. right. exists (snd kv). split; [now apply in_map | assumption].
Qed.

Lemma getRoomIds_listed (s : DMRoomMap) (r : string) :
  NoDup (obj_keys (mDirectEvent s)) ->
  (In r (getRoomIds s) <-> exists k, In r (rooms_of (mDirectEvent s) k)).
Proof.
  intros Hnd. rewrite getRoomIds_In. split.
  - intros [[k l] [Hkv Hr]]. exists k. unfold rooms_of.
    now rewrite (obj_In_get _ _ _ Hnd Hkv).
  - intros [k Hk]. unfold rooms_of in Hk.
    destruct (obj_get k (mDirectEvent s)) as [l|] eqn:E; [|destruct Hk].
    exists (k, l). split; [now apply obj_get_Some_In | assumption].
Qed.

(** C10.  The repair preserves the set of room identifiers: a room
    identifier is returned by the all-room-identifiers query after a rebuild
    of User->Rooms exactly when it was returned before it, and the repair
    pass itself lists a room under some user after it exactly when it did
    before it. *)
Theorem repair_preserves_room_ids (c : MatrixClient) (s : DMRoomMap) :
  NoDup (obj_keys (mDirectEvent s)) ->
  (forall r, In r (getRoomIds (snd (getUserToRooms c s))) <-> In r (getRoomIds s)) /\
  (forall r, (exists k, In r (rooms_of (snd (patchUpSelfDMs c (mDirectEvent s))) k)) <->
             (exists k, In r (rooms_of (mDirectEvent s) k))).
Proof.
  intros Hnd. split; [|apply patchUpSelfDMs_listed].
  intros r. destruct (userToRooms s) as [m|] eqn:E.
  - rewrite (getUserToRooms_cached c s E). reflexivity.
  - destruct (getUserToRooms_rebuild c s E) as [Hfst [_ [Hm _]]].
    rewrite Hfst in Hm.
    rewrite getRoomIds_listed, (getRoomIds_listed s r Hnd), Hm.
    + apply patchUpSelfDMs_listed.
    + rewrite Hm. now apply patchUpSelfDMs_NoDup.
Qed.

Lemma repair_preserves_room_ids_witness :
  let c := Sample.misfiled in
  NoDup (obj_keys (mDirectEvent (constructor c))) /\
  (In Sample.r1 (getRoomIds (snd (getUserToRooms c (constructor c)))) <->
   In Sample.r1 (getRoomIds (constructor c))).
Proof.
  assert (Hnd : NoDup (obj_keys (mDirectEvent (constructor Sample.misfiled)))).
  { vm_compute. repeat constructor; simpl; intuition discriminate. }
  split; [exact Hnd|].
  apply (@repair_preserves_room_ids Sample.misfiled (constructor Sample.misfiled) Hnd).
Defined.

(** ** Room to user *)

Section Inversion.
Variable c : MatrixClient.

Lemma getUserToRooms_post (s : DMRoomMap) :
  userToRooms (snd (getUserToRooms c s)) = Some (fst (getUserToRooms c s)).
Proof.
  destruct (userToRooms s) as [m|] eqn:E.
  - rewrite (getUserToRooms_cached c s E). assumption.
  - now destruct (getUserToRooms_rebuild c s E) as [_ [H _]].
Qed.

Lemma getUserToRooms_set_roomToUser (s : DMRoomMap) (x : option (JsObj.t string)) :
  getUserToRooms c (set_roomToUser x s) =
  (fst (getUserToRooms c s), set_roomToUser x (snd (getUserToRooms c s))).
Proof.
  unfold getUserToRooms. simpl.
  destruct (userToRooms s); [reflexivity|].
  destruct (obj_get (getUserId c) (mDirectEvent s)) as [[|r rs]|]; try reflexivity.
  destruct (patchUpSelfDMs c (mDirectEvent s)) as [b p]. simpl.
  destruct (b && negb (hasSentOutPatchDirectAccountDataPatch s)); reflexivity.
Qed.

Lemma fold_obj_set_rooms (user R : string) (rooms : list string) (acc : JsObj.t string) :
  obj_get R (fold_left (fun acc' roomId => obj_set roomId user acc') rooms acc) =
  if includes rooms R then Some user else obj_get R acc.
Proof.
  revert acc. induction rooms as [|r rooms IH]; intros acc; [reflexivity|].
  cbn [fold_left]. rewrite IH. unfold includes. simpl. fold (includes rooms R).
  destruct (includes rooms R); [now rewrite orb_true_r|].
  rewrite orb_false_r, obj_get_set. reflexivity.
Qed.

Lemma fold_populate_get (u : DirectMap) (R : string) (ks : list string) (acc : JsObj.t string) :
  obj_get R
    (fold_left
       (fun acc user =>
          match obj_get user u with
          | Some rooms => fold_left (fun acc' roomId => obj_set roomId user acc') rooms acc
          | None => acc
          end) ks acc) =
  fold_left (fun found user => if includes (rooms_of u user) R then Some user else found)
            ks (obj_get R acc).
Proof.
  revert acc. induction ks as [|k ks IH]; intros acc; [reflexivity|].
  cbn [fold_left]. rewrite IH. f_equal. unfold rooms_of.
  destruct (obj_get k u) as [rooms|]; [apply fold_obj_set_rooms | reflexivity].
Qed.

(** What [populateRoomToUser] builds. *)
Lemma populateRoomToUser_spec (s : DMRoomMap) :
  let s' := snd (populateRoomToUser c s) in
  let index := fst (getUserToRooms c s) in
  userToRooms s' = Some index /\
  trace s' = trace (snd (getUserToRooms c s)) /\
  hasSentOutPatchDirectAccountDataPatch s' =
    hasSentOutPatchDirectAccountDataPatch (snd (getUserToRooms c s)) /\
  mDirectEvent s' = mDirectEvent (snd (getUserToRooms c s)) /\
  listening s' = listening (snd (getUserToRooms c s)) /\
  exists r2u, roomToUser s' = Some r2u /\ forall R, obj_get R r2u = last_lister index R.
Proof.
  unfold populateRoomToUser. rewrite getUserToRooms_set_roomToUser.
  pose proof (getUserToRooms_post s) as Hpost.
  destruct (getUserToRooms c s) as [m s1]. simpl in *.
  repeat split; try assumption.
  eexists. split; [reflexivity|]. intros R. apply fold_populate_get.
Qed.

Lemma getUserIdForRoomId_built (s : DMRoomMap) (r2u : JsObj.t string) (R : string) :
  roomToUser s = Some r2u ->
  getUserIdForRoomId c R s =
  (match obj_get R r2u with Some user => Some user | None => invite_hint c R end, s).
Proof.
  intros H. unfold getUserIdForRoomId, invite_hint. rewrite H. cbv beta iota zeta. rewrite H.
  destruct (obj_get R r2u); [reflexivity|]. now destruct (getRoom c R).
Qed.

Lemma getUserIdForRoomId_unbuilt (s : DMRoomMap) (R : string) :
  roomToUser s = None ->
  getUserIdForRoomId c R s =
  (match last_lister (fst (getUserToRooms c s)) R with
   | Some user => Some user
   | None => invite_hint c R
   end, snd (populateRoomToUser c s)).
Proof.
  intros H. unfold getUserIdForRoomId, invite_hint. rewrite H. cbv beta iota zeta.
  destruct (populateRoomToUser_spec s) as [_ [_ [_ [_ [_ [r2u [Hr Hget]]]]]]].
  rewrite Hr, Hget.
  destruct (last_lister _ R); [reflexivity|]. now destruct (getRoom c R).
Qed.

End Inversion.

(** *** The last writer *)

Lemma last_lister_from_Some (u : DirectMap) (R : string) (ks : list string)
  (found : option string) (k : string) :
  fold_left (fun found user => if includes (rooms_of u user) R then Some user else found)
            ks found = Some k ->
  (In k ks /\ In R (rooms_of u k)) \/ found = Some k.
Proof.
  revert found. induction ks as [|k0 ks IH]; intros found; simpl; [auto|].
  intros H. apply IH in H. destruct H as [[H1 H2]|H]; [auto|].
  destruct (includes (rooms_of u k0) R) eqn:E; [|auto].
  injection H as <-. apply includes_In in E. auto.
Qed.

Lemma last_lister_from_found (u : DirectMap) (R : string) (ks : list string) (k : string) :
  exists k', fold_left (fun found user => if includes (rooms_of u user) R then Some user else found)
                       ks (Some k) = Some k'.
Proof.
  revert k. induction ks as [|k0 ks IH]; intros k; simpl; [eauto|].
  destruct (includes (rooms_of u k0) R); apply IH.
Qed.

Lemma last_lister_from_complete (u : DirectMap) (R : string) (ks : list string)
  (found : option string) (k : string) :
  In k ks -> In R (rooms_of u k) ->
  exists k', fold_left (fun found user => if includes (rooms_of u user) R then Some user else found)
                       ks found = Some k'.
Proof.
  revert found. induction ks as [|k0 ks IH]; intros found; simpl; [tauto|].
  intros [->|Hin] HR.
  - apply includes_In in HR. rewrite HR. apply last_lister_from_found.
  - now apply IH.
Qed.

Lemma rooms_of_In_keys (u : DirectMap) (k R : string) :
  In R (rooms_of u k) -> In k (obj_keys u).
Proof.
  unfold rooms_of. intros H. destruct (obj_get k u) eqn:E; [|destruct H].
  destruct (in_dec string_dec k (obj_keys u)) as [Hin|Hn]; [assumption|].
  apply obj_get_None_keys in Hn. congruence.
Qed.

Lemma last_lister_Some (u : DirectMap) (R k : string) :
  last_lister u R = Some k -> In k (obj_keys u) /\ In R (rooms_of u k).
Proof.
  intros H. apply last_lister_from_Some in H. destruct H as [H|H]; [assumption | discriminate].
Qed.

Lemma last_lister_complete (u : DirectMap) (R k : string) :
  In R (rooms_of u k) -> exists k', last_lister u R = Some k'.
Proof.
  intros H. apply last_lister_from_complete with (k := k); [|assumption].
  now apply rooms_of_In_keys with (R := R).
Qed.

Lemma last_lister_None (u : DirectMap) (R : string) :
  last_lister u R = None <-> forall k, ~ In R (rooms_of u k).
Proof.
  split.
  - intros H k Hk. destruct (last_lister_complete u R k Hk) as [k' Hk']. congruence.
  - intros H. destruct (last_lister u R) as [k|] eqn:E; [|reflexivity].
    apply last_lister_Some in E. destruct (H k). tauto.
Qed.

(** The key that wins is the last one, in key order, whose list holds the
    room. *)
Lemma last_lister_last (u : DirectMap) (R k : string) (ks1 ks2 : list string) :
  obj_keys u = ks1 ++ k :: ks2 ->
  In R (rooms_of u k) ->
  (forall k', In k' ks2 -> ~ In R (rooms_of u k')) ->
  last_lister u R = Some k.
Proof.
  intros Hk HR Hafter. unfold last_lister. rewrite Hk, fold_left_app. simpl.
  apply includes_In in HR. rewrite HR.
  clear Hk. induction ks2 as [|k2 ks2 IH]; simpl; [reflexivity|].
  assert (E : includes (rooms_of u k2) R = false).
  { apply includes_false. apply Hafter. now left. }
  rewrite E. apply IH. intros k' Hk'. apply Hafter. now right.
Qed.

Lemma last_lister_unique (u : DirectMap) (R k : string) :
  In R (rooms_of u k) ->
  (forall k', In R (rooms_of u k') -> k' = k) ->
  last_lister u R = Some k.
Proof.
  intros HR Huniq. destruct (last_lister_complete u R k HR) as [k' Hk'].
  rewrite Hk'. f_equal. apply Huniq. now apply last_lister_Some.
Qed.

(** C4.  User-for-room against rooms-for-user, on an index that is not built
    yet: for every user U and every room R that rooms-for-user gives for U,
    user-for-room on R returns the last user, in the key order of the
    repaired map, whose list holds R.  That user always lists R; it is U when
    no other user lists R, and when no key after U lists R.  Without an own
    entry of the user of the session the repaired map is the Direct Map. *)
Theorem user_for_room_inverts (c : MatrixClient) (s : DMRoomMap) (U R : string) :
  userToRooms s = None ->
  roomToUser s = None ->
  In R (fst (getDMRoomsForUserId c U s)) ->
  let index := snd (patchUpSelfDMs c (mDirectEvent s)) in
  let user := fst (getUserIdForRoomId c R (snd (getDMRoomsForUserId c U s))) in
  user = last_lister index R /\
  (exists V, user = Some V /\ In R (rooms_of index V)) /\
  ((forall V, In R (rooms_of index V) -> V = U) -> user = Some U) /\
  (forall ks1 ks2, obj_keys index = ks1 ++ U :: ks2 ->
                   (forall V, In V ks2 -> ~ In R (rooms_of index V)) -> user = Some U) /\
  (obj_get (getUserId c) (mDirectEvent s) = None -> index = mDirectEvent s) /\
  fst (getUserIdForRoomId c R (snd (start c s))) = user.
Proof.
  intros Hu Hr Hin index user.
  destruct (getDMRoomsForUserId_rebuild c s U Hu) as [Hrooms Hs1].
  rewrite Hrooms in Hin. fold index in Hin.
  destruct (getUserToRooms_rebuild c s Hu) as [Hfst [Hcache [_ [Hr2u _]]]].
  rewrite Hfst in Hcache. fold index in Hcache.
  assert (Huser : user = last_lister index R).
  { unfold user. rewrite Hs1, getUserIdForRoomId_unbuilt by congruence.
    rewrite (getUserToRooms_cached c _ Hcache). simpl.
    destruct (last_lister_complete index R U Hin) as [k Hk]. now rewrite Hk. }
  split; [assumption|]. rewrite Huser. repeat split.
  - destruct (last_lister_complete index R U Hin) as [k Hk].
    exists k. split; [assumption|]. now apply last_lister_Some.
  - intros Huniq. now apply last_lister_unique.
  - intros ks1 ks2 Hk Hafter. now apply last_lister_last with (ks1 := ks1) (ks2 := ks2).
  - intros Hme. unfold index. rewrite patchUpSelfDMs_unchanged; [reflexivity|].
    unfold changes. now rewrite Hme.
  - destruct (populateRoomToUser_spec c s) as [_ [_ [_ [_ [_ [r2u [Hb Hget]]]]]]].
    rewrite Hfst in Hget. fold index in Hget.
    assert (Hstart : roomToUser (snd (start c s)) = Some r2u).
    { unfold start. destruct (populateRoomToUser c s) as [[] s2]. exact Hb. }
    rewrite (getUserIdForRoomId_built c _ R Hstart). simpl. rewrite Hget.
    destruct (last_lister_complete index R U Hin) as [k Hk]. now rewrite Hk.
Qed.

Lemma user_for_room_inverts_witness :
  let c := Sample.common in
  fst (getUserIdForRoomId c Sample.r1
         (snd (getDMRoomsForUserId c Sample.alice (constructor c)))) = Some Sample.alice.
Proof.
  destruct (@user_for_room_inverts Sample.common (constructor Sample.common)
              Sample.alice Sample.r1 eq_refl eq_refl (or_introl eq_refl))
    as [_ [_ [_ [H _]]]].
  apply (H [] [Sample.bob] eq_refl).
  intros V [<-|[]]. vm_compute. intros [H1|[H1|[]]]; discriminate.
Defined.

(** A room listed under two users: user-for-room returns the later one, so
    it does not return the first for a room of the first's list. *)
Lemma user_for_room_not_inverse :
  ~ (forall (c : MatrixClient) (s : DMRoomMap) (U R : string),
        userToRooms s = None ->
        roomToUser s = None ->
        obj_get (getUserId c) (mDirectEvent s) = None ->
        In R (fst (getDMRoomsForUserId c U s)) ->
        fst (getUserIdForRoomId c R (snd (getDMRoomsForUserId c U s))) = Some U).
Proof.
  intros H.
  specialize (H Sample.shared_room (constructor Sample.shared_room)
                Sample.alice Sample.r1 eq_refl eq_refl eq_refl (or_introl eq_refl)).
  vm_compute in H. discriminate.
Qed.

(** ** Change notifications *)

(** C5.  After [onAccountData] has received an event of the Direct Map type,
    the stored map is a copy of the new content (the content itself when its
    keys are distinct), both derived indexes are unbuilt, and rooms-for-user
    and user-for-room return what the new map gives, whatever the state was
    before: the list of the repaired new map, and the last user of the
    repaired new map listing the room or else the invite hint. *)
Theorem change_notification_invalidates
  (c : MatrixClient) (s : DMRoomMap) (ev : MatrixEvent) (u r : string) :
  getType ev = EventType_Direct ->
  let s' := onAccountData ev s in
  let new_index := snd (patchUpSelfDMs c (obj_copy (getContent ev))) in
  mDirectEvent s' = obj_copy (getContent ev) /\
  (NoDup (obj_keys (getContent ev)) -> mDirectEvent s' = getContent ev) /\
  userToRooms s' = None /\
  roomToUser s' = None /\
  fst (getDMRoomsForUserId c u s') = rooms_of new_index u /\
  fst (getUserIdForRoomId c r s') =
    match last_lister new_index r with
    | Some user => Some user
    | None => invite_hint c r
    end.
Proof.
  intros Hty s' new_index.
  assert (Hs' : s' = set_roomToUser None
                       (set_userToRooms None
                          (set_mDirectEvent (obj_copy (getContent ev)) s))).
  { unfold s', onAccountData. rewrite Hty. reflexivity. }
  assert (Hu : userToRooms s' = None) by now rewrite Hs'.
  assert (Hr : roomToUser s' = None) by now rewrite Hs'.
  assert (Hm : mDirectEvent s' = obj_copy (getContent ev)) by now rewrite Hs'.
  repeat split; try assumption.
  - intros Hnd. rewrite Hm. now apply obj_copy_NoDup_id.
  - destruct (getDMRoomsForUserId_rebuild c s' u Hu) as [H _]. now rewrite H, Hm.
  - rewrite getUserIdForRoomId_unbuilt by assumption. simpl.
    destruct (getUserToRooms_rebuild c s' Hu) as [H _]. now rewrite H, Hm.
Qed.

Lemma change_notification_invalidates_witness :
  let c := Sample.common in
  let built := snd (start c (constructor c)) in
  let ev := mkEvent EventType_Direct [(Sample.bob, [Sample.r1])] in
  fst (getDMRoomsForUserId c Sample.alice built) = [Sample.r1; Sample.r2] /\
  fst (getDMRoomsForUserId c Sample.alice (onAccountData ev built)) = [] /\
  fst (getUserIdForRoomId c Sample.r1 (onAccountData ev built)) = Some Sample.bob.
Proof.
  intros c built ev. split; [reflexivity|].
  pose proof (@change_notification_invalidates c built ev) as H.
  split.
  - destruct (H Sample.alice Sample.r1 eq_refl) as [_ [_ [_ [_ [H1 _]]]]].
    etransitivity; [exact H1 | reflexivity].
  - destruct (H Sample.alice Sample.r1 eq_refl) as [_ [_ [_ [_ [_ H2]]]]].
    etransitivity; [exact H2 | reflexivity].
Defined.

(** ** The common room of a list of identifiers *)

Lemma filter_filter (A : Type) (p q : A -> bool) (l : list A) :
  filter p (filter q l) = filter (fun x => q x && p x) l.
Proof.
  induction l as [|a l IH]; simpl; [reflexivity|].
  destruct (q a); simpl; [destruct (p a)|]; now rewrite IH.
Qed.

Lemma fold_filter_forallb (rooms : string -> list string) (rest cr : list string) :
  fold_left (fun cr id => filter (fun r => includes (rooms id) r) cr) rest cr =
  filter (fun r => forallb (fun id => includes (rooms id) r) rest) cr.
Proof.
  revert cr. induction rest as [|id rest IH]; intros cr; simpl.
  - symmetry. now apply filter_all.
  - rewrite IH. apply filter_filter.
Qed.

Lemma hd_map_defined_None (A B : Type) (f : A -> option B) (l : list A) :
  hd_error (map_defined f l) = None <-> forall x, In x l -> f x = None.
Proof.
  induction l as [|a l IH]; simpl.
  - split; [intros _ x [] | reflexivity].
  - destruct (f a) eqn:E; simpl.
    + split; [discriminate|]. intros H. rewrite H in E by now left. discriminate.
    + rewrite IH. split.
      * intros H x [<-|Hx]; auto.
      * intros H x Hx. apply H. now right.
Qed.

Lemma hd_map_defined_Some (A B : Type) (f : A -> option B) (l : list A) (y : B) :
  hd_error (map_defined f l) = Some y <->
  exists l1 x l2, l = l1 ++ x :: l2 /\ f x = Some y /\ forall x', In x' l1 -> f x' = None.
Proof.
  induction l as [|a l IH]; simpl.
  - split; [discriminate|]. intros [l1 [x [l2 [H _]]]]. destruct l1; discriminate.
  - destruct (f a) eqn:E; simpl.
    + split.
      * intros [= ->]. exists [], a, l. repeat split; [assumption | intros x' []].
      * intros [l1 [x [l2 [Hl [Hx Hn]]]]]. destruct l1 as [|a' l1]; simpl in Hl.
        -- injection Hl as -> ->. congruence.
        -- injection Hl as -> ->. rewrite Hn in E by now left. discriminate.
    + rewrite IH. split.
      * intros [l1 [x [l2 [-> [Hx Hn]]]]]. exists (a :: l1), x, l2.
        repeat split; [assumption|]. intros x' [<-|Hx']; auto.
      * intros [l1 [x [l2 [Hl [Hx Hn]]]]]. destruct l1 as [|a' l1]; simpl in Hl.
        -- injection Hl as -> ->. congruence.
        -- injection Hl as -> ->. exists l1, x, l2. repeat split; [assumption|].
           intros x' Hx'. apply Hn. now right.
Qed.

Section Common.
Variable c : MatrixClient.
Variable peg : MatrixClient.

Lemma getDMRoomsForUserId_index (s : DMRoomMap) (u : string) :
  getDMRoomsForUserId c u s =
  (rooms_of (fst (getUserToRooms c s)) u, snd (getUserToRooms c s)).
Proof.
  unfold getDMRoomsForUserId, bind, ret. now destruct (getUserToRooms c s).
Qed.

Lemma narrow_cached (s : DMRoomMap) (m : DirectMap) (rest cr : list string) :
  userToRooms s = Some m ->
  narrow c rest cr s =
  (fold_left (fun cr id => filter (fun r => includes (rooms_of m id) r) cr) rest cr, s).
Proof.
  intros H. revert cr. induction rest as [|id rest IH]; intros cr; [reflexivity|].
  cbn [narrow fold_left]. unfold bind at 1.
  rewrite (getDMRoomsForUserId_cached c s id H). apply IH.
Qed.

Lemma getDMRoomForIdentifiers_spec (s : DMRoomMap) (ids : list string) :
  getDMRoomForIdentifiers c peg ids s =
  (hd_error (map_defined (joined peg)
                         (shared_by (rooms_of (fst (getUserToRooms c s))) ids)),
   snd (getUserToRooms c s)).
Proof.
  unfold getDMRoomForIdentifiers, bind at 1.
  rewrite getDMRoomsForUserId_index. unfold bind at 1.
  rewrite (narrow_cached _ _ _ (getUserToRooms_post c s)).
  rewrite fold_filter_forallb. reflexivity.
Qed.

End Common.

Lemma shared_by_In (rooms : string -> list string) (id0 : string) (rest : list string)
  (r : string) :
  In r (shared_by rooms (id0 :: rest)) <-> forall id, In id (id0 :: rest) -> In r (rooms id).
Proof.
  unfold shared_by. simpl. rewrite filter_In, forallb_forall. split.
  - intros [H0 H] id [<-|Hid]; [assumption|]. apply includes_In. now apply H.
  - intros H. split; [apply H; now left|].
    intros id Hid. apply includes_In. apply H. now right.
Qed.

Lemma shared_by_ext (rooms1 rooms2 : string -> list string) (ids : list string) :
  (forall id, rooms1 id = rooms2 id) -> shared_by rooms1 ids = shared_by rooms2 ids.
Proof.
  intros H. unfold shared_by. rewrite H. apply filter_ext. intros r.
  induction (tl ids) as [|id l IH]; simpl; [reflexivity|]. now rewrite H, IH.
Qed.

(** C6.  The common-room query on a non-empty list of identifiers: the
    candidates are the rooms of the first identifier that every identifier of
    the list has, by the rooms-for-user query and in the order of the first
    list; the result is the room object of the first candidate whose room
    object exists and reports membership "join"; there is no result exactly
    when no candidate has such a room object, in particular when there is no
    candidate. *)
Theorem common_room_lookup
  (c peg : MatrixClient) (s : DMRoomMap) (id0 : string) (rest : list string) :
  let ids := id0 :: rest in
  let rooms := fun id => fst (getDMRoomsForUserId c id s) in
  let candidates := shared_by rooms ids in
  let result := fst (getDMRoomForIdentifiers c peg ids s) in
  (forall r, In r candidates <-> forall id, In id ids -> In r (rooms id)) /\
  result = hd_error (map_defined (joined peg) candidates) /\
  (forall room,
      result = Some room <->
      exists before r after,
        candidates = before ++ r :: after /\
        joined peg r = Some room /\
        forall r', In r' before -> joined peg r' = None) /\
  (result = None <-> forall r, In r candidates -> joined peg r = None) /\
  (candidates = [] -> result = None).
Proof.
  intros ids rooms candidates result.
  assert (Hres : result = hd_error (map_defined (joined peg) candidates)).
  { unfold result, candidates. rewrite getDMRoomForIdentifiers_spec. simpl.
    do 2 f_equal. apply shared_by_ext. intros id. unfold rooms.
    now rewrite getDMRoomsForUserId_index. }
  split; [apply shared_by_In|]. split; [assumption|]. rewrite Hres. repeat split.
  - apply hd_map_defined_Some.
  - apply hd_map_defined_Some.
  - apply hd_map_defined_None.
  - apply hd_map_defined_None.
  - intros ->. reflexivity.
Qed.

Lemma common_room_lookup_witness :
  let c := Sample.common in
  fst (getDMRoomForIdentifiers c c [Sample.alice; Sample.bob] (constructor c)) =
  Some (Sample.pair_room Sample.r2 Sample.alice).
Proof.
  intros c.
  destruct (@common_room_lookup c c (constructor c) Sample.alice [Sample.bob])
    as [_ [_ [H _]]].
  apply H. exists [], Sample.r2, []. repeat split. intros r' [].
Defined.

(** ** Unique rooms with individuals *)

Lemma mapM_pure (A B : Type) (f : A -> M B) (g : A -> B) (s : DMRoomMap) (l : list A) :
  (forall x, f x s = (g x, s)) -> mapM f l s = (map g l, s).
Proof.
  intros H. induction l as [|a l IH]; [reflexivity|].
  cbn [mapM map]. unfold bind at 1. rewrite H. unfold bind at 1. rewrite IH. reflexivity.
Qed.

Section Reduce.
Variable V : Type.

Lemma reduce_set_get (l : list (string * V)) (acc : JsObj.t V) (k : string) (v : V) :
  obj_get k (fold_left (fun obj r => obj_set (fst r) (snd r) obj) l acc) = Some v ->
  In (k, v) l \/ obj_get k acc = Some v.
Proof.
  revert acc. induction l as [|[k0 v0] l IH]; intros acc; simpl; [auto|].
  intros H. apply IH in H. destruct H as [H|H]; [auto|].
  rewrite obj_get_set in H. destruct (String.eqb k k0) eqn:E; [|auto].
  apply String.eqb_eq in E. injection H as <-. subst. auto.
Qed.

Lemma reduce_set_keeps (l : list (string * V)) (acc : JsObj.t V) (k : string) (v : V) :
  obj_get k acc = Some v ->
  exists v', obj_get k (fold_left (fun obj r => obj_set (fst r) (snd r) obj) l acc) = Some v'.
Proof.
  revert acc v. induction l as [|[k0 v0] l IH]; intros acc v H; simpl; [eauto|].
  destruct (String.eqb k k0) eqn:E.
  - apply IH with (v := v0). rewrite obj_get_set, E. reflexivity.
  - apply IH with (v := v). rewrite obj_get_set, E. assumption.
Qed.

Lemma reduce_set_defined (l : list (string * V)) (acc : JsObj.t V) (k : string) (v : V) :
  In (k, v) l ->
  exists v', obj_get k (fold_left (fun obj r => obj_set (fst r) (snd r) obj) l acc) = Some v'.
Proof.
  revert acc. induction l as [|[k0 v0] l IH]; intros acc; simpl; [tauto|].
  intros [H|H].
  - injection H as -> ->. apply reduce_set_keeps with (v := v). apply obj_get_set_eq.
  - now apply IH.
Qed.

End Reduce.

Section Unique.
Variable c : MatrixClient.

Lemma getUniqueRoomsWithIndividuals_built (s : DMRoomMap) (r2u : JsObj.t string) :
  roomToUser s = Some r2u ->
  getUniqueRoomsWithIndividuals c s =
  (fold_left (fun obj r => obj_set (fst r) (snd r) obj)
     (map_defined
        (fun e : option string * option Room =>
           match e with
           | (Some userId, Some room) =>
               if truthy userId && Nat.eqb (getInvitedAndJoinedMemberCount room) 2
               then Some (userId, room) else None
           | _ => None
           end)
        (map (fun r => (match obj_get r r2u with
                        | Some user => Some user
                        | None => invite_hint c r
                        end, getRoom c r))
             (obj_keys r2u)))
     [], s).
Proof.
  intros H. unfold getUniqueRoomsWithIndividuals. rewrite H.
  rewrite mapM_pure with
    (g := fun r => (match obj_get r r2u with
                    | Some user => Some user
                    | None => invite_hint c r
                    end, getRoom c r)).
  - reflexivity.
  - intros r. unfold bind, ret. now rewrite (getUserIdForRoomId_built c s r H).
Qed.

End Unique.

(** C7.  The unique-1:1 query.  When Room->User has never been built the
    result is the empty mapping and nothing is built.  When it is built the
    state is left as it is, and the result is keyed by user: every entry maps
    a non-empty user identifier to the room object of a room that Room->User
    maps to that user, that exists and that counts exactly two invited or
    joined members (so no room counting another number of members is in the
    result), and every non-empty user identifier that Room->User gives to at
    least one such room has an entry. *)
Theorem unique_rooms_with_individuals (c : MatrixClient) (s : DMRoomMap) :
  (roomToUser s = None -> getUniqueRoomsWithIndividuals c s = ([], s)) /\
  (forall r2u,
      roomToUser s = Some r2u ->
      let result := fst (getUniqueRoomsWithIndividuals c s) in
      snd (getUniqueRoomsWithIndividuals c s) = s /\
      (forall U room,
          obj_get U result = Some room ->
          U <> "" /\
          getInvitedAndJoinedMemberCount room = 2 /\
          exists R, obj_get R r2u = Some U /\ getRoom c R = Some room) /\
      (forall U room,
          getInvitedAndJoinedMemberCount room <> 2 -> obj_get U result <> Some room) /\
      (forall U R,
          U <> "" -> obj_get R r2u = Some U -> is_pair c R ->
          exists room, obj_get U result = Some room)).
Proof.
  split.
  - intros H. unfold getUniqueRoomsWithIndividuals. now rewrite H.
  - intros r2u H result.
    assert (Hsound : forall U room,
               obj_get U result = Some room ->
               U <> "" /\ getInvitedAndJoinedMemberCount room = 2 /\
               exists R, obj_get R r2u = Some U /\ getRoom c R = Some room).
    { intros U room Hget. unfold result in Hget.
      rewrite (getUniqueRoomsWithIndividuals_built c s H) in Hget. simpl in Hget.
      apply reduce_set_get in Hget. destruct Hget as [Hin|Hemp]; [|discriminate].
      apply map_defined_In in Hin. destruct Hin as [[ou oroom] [Hin Hh]].
      apply in_map_iff in Hin. destruct Hin as [R [Hg HR]].
      injection Hg as Hu Hroom. subst ou oroom.
      destruct (obj_get R r2u) as [u'|] eqn:Eu.
      - destruct (getRoom c R) as [room'|] eqn:Er; [|discriminate].
        destruct (truthy u') eqn:Et; simpl in Hh; [|discriminate].
        destruct (Nat.eqb (getInvitedAndJoinedMemberCount room') 2) eqn:En; [|discriminate].
        injection Hh as -> ->. apply Nat.eqb_eq in En.
        unfold truthy in Et. apply negb_true_iff, String.eqb_neq in Et.
        repeat split; try assumption. exists R. auto.
      - exfalso. apply obj_get_None_keys in Eu. contradiction. }
    rewrite (getUniqueRoomsWithIndividuals_built c s H). simpl.
    split; [reflexivity|]. split; [assumption|]. split.
    + intros U room Hcount Hget. apply Hsound in Hget. tauto.
    + intros U R HU HR [room [Hroom Hcount]]. unfold result.
      rewrite (getUniqueRoomsWithIndividuals_built c s H). simpl.
      apply reduce_set_defined with (v := room).
      apply map_defined_In. exists (Some U, Some room). split.
      * apply in_map_iff. exists R. rewrite HR, Hroom. split; [reflexivity|].
        apply obj_get_Some_In in HR. change R with (fst (R, U)). now apply in_map.
      * unfold truthy. apply String.eqb_neq in HU. rewrite HU, Hcount. reflexivity.
Qed.

Lemma unique_rooms_with_individuals_witness :
  let c := Sample.two_with_alice in
  getUniqueRoomsWithIndividuals c (constructor c) = ([], constructor c) /\
  exists room, obj_get Sample.alice
                 (fst (getUniqueRoomsWithIndividuals c (snd (start c (constructor c)))))
               = Some room.
Proof.
  intros c. split.
  - apply (@unique_rooms_with_individuals c (constructor c)). reflexivity.
  - destruct (@unique_rooms_with_individuals c (snd (start c (constructor c)))) as [_ H].
    destruct (H _ eq_refl) as [_ [_ [_ Hc]]].
    apply (Hc Sample.alice Sample.r1); [discriminate | reflexivity|].
    exists (Sample.pair_room Sample.r1 Sample.alice). split; reflexivity.
Defined.

(** Two rooms of two members under one user: the result holds the room
    object of one of them only. *)
Lemma unique_rooms_drops_a_pair :
  ~ (forall (c : MatrixClient) (s : DMRoomMap) (r2u : JsObj.t string) (R : string),
        roomToUser s = Some r2u ->
        In R (obj_keys r2u) ->
        is_pair c R ->
        exists U room,
          obj_get U (fst (getUniqueRoomsWithIndividuals c s)) = Some room /\
          getRoom c R = Some room).
Proof.
  intros H.
  destruct (H Sample.two_with_alice
              (snd (start Sample.two_with_alice (constructor Sample.two_with_alice)))
              _ Sample.r1 eq_refl (or_introl eq_refl))
    as [U [room [Hget Hroom]]].
  - exists (Sample.pair_room Sample.r1 Sample.alice). split; reflexivity.
  - vm_compute in Hroom. injection Hroom as <-.
    vm_compute in Hget.
    repeat match type of Hget with
           | (if ?b then _ else _) = _ => destruct b
           | match ?x with _ => _ end = _ => destruct x
           end; discriminate.
Qed.

(** ** The correction flag *)

Section Flag.

Lemma flag_step_refl (s : DMRoomMap) : flag_step s s.
Proof. left. auto. Qed.

Lemma flag_step_same (s s' : DMRoomMap) :
  hasSentOutPatchDirectAccountDataPatch s' = hasSentOutPatchDirectAccountDataPatch s ->
  trace s' = trace s -> flag_step s s'.
Proof. intros Hf Ht. left. unfold write_backs. now rewrite Hf, Ht. Qed.

Lemma flag_step_via (s s1 s' : DMRoomMap) :
  flag_step s s1 ->
  hasSentOutPatchDirectAccountDataPatch s' = hasSentOutPatchDirectAccountDataPatch s1 ->
  trace s' = trace s1 -> flag_step s s'.
Proof.
  unfold flag_step, write_backs. intros H Hf Ht. rewrite Hf, Ht. exact H.
Qed.

Lemma getUserToRooms_flag_step (c : MatrixClient) (s : DMRoomMap) :
  flag_step s (snd (getUserToRooms c s)).
Proof.
  unfold getUserToRooms. destruct (userToRooms s); [apply flag_step_refl|].
  destruct (obj_get (getUserId c) (mDirectEvent s)) as [[|r rs]|];
    try (apply flag_step_same; reflexivity).
  destruct (patchUpSelfDMs c (mDirectEvent s)) as [b p]. simpl.
  destruct b, (hasSentOutPatchDirectAccountDataPatch s) eqn:E; simpl.
  - left. unfold write_backs. simpl. rewrite filter_app. simpl.
    now rewrite app_nil_r, E.
  - right. repeat split; [assumption|].
    exists (SetAccountData EventType_Direct p). unfold write_backs. simpl.
    rewrite !filter_app. simpl. now rewrite app_nil_r.
  - left. unfold write_backs. simpl. rewrite filter_app. simpl.
    now rewrite app_nil_r, E.
  - left. unfold write_backs. simpl. rewrite filter_app. simpl.
    now rewrite app_nil_r, E.
Qed.

Lemma populateRoomToUser_flag_step (c : MatrixClient) (s : DMRoomMap) :
  flag_step s (snd (populateRoomToUser c s)).
Proof.
  destruct (populateRoomToUser_spec c s) as [_ [Ht [Hf _]]].
  eapply flag_step_via; [apply (getUserToRooms_flag_step c s) | exact Hf | exact Ht].
Qed.

Lemma getUserIdForRoomId_state (c : MatrixClient) (s : DMRoomMap) (R : string) :
  snd (getUserIdForRoomId c R s) =
  match roomToUser s with
  | None => snd (populateRoomToUser c s)
  | Some _ => s
  end.
Proof.
  destruct (roomToUser s) as [r2u|] eqn:E.
  - now rewrite (getUserIdForRoomId_built c s R E).
  - now rewrite (getUserIdForRoomId_unbuilt c s R E).
Qed.

Lemma getUniqueRoomsWithIndividuals_state (c : MatrixClient) (s : DMRoomMap) :
  snd (getUniqueRoomsWithIndividuals c s) = s.
Proof.
  destruct (roomToUser s) as [r2u|] eqn:E.
  - now rewrite (getUniqueRoomsWithIndividuals_built c s E).
  - unfold getUniqueRoomsWithIndividuals. now rewrite E.
Qed.

Lemma step_flag_step (s : DMRoomMap) (m : Moment) : flag_step s (step s m).
Proof.
  unfold step. destruct (action m) as [| |ev|u|ids|r| |].
  - unfold start.
    pose proof (populateRoomToUser_flag_step (now_client m) s) as H.
    destruct (populateRoomToUser (now_client m) s) as [[] s1]. simpl in *.
    eapply flag_step_via; [exact H | reflexivity | reflexivity].
  - apply flag_step_same; reflexivity.
  - destruct (listening s); [|apply flag_step_refl].
    unfold onAccountData. destruct (String.eqb _ _); [|apply flag_step_refl].
    apply flag_step_same; reflexivity.
  - rewrite getDMRoomsForUserId_index. apply getUserToRooms_flag_step.
  - rewrite getDMRoomForIdentifiers_spec. apply getUserToRooms_flag_step.
  - rewrite getUserIdForRoomId_state. destruct (roomToUser s).
    + apply flag_step_refl.
    + apply populateRoomToUser_flag_step.
  - rewrite getUniqueRoomsWithIndividuals_state. apply flag_step_refl.
  - apply flag_step_refl.
Qed.

End Flag.

Lemma flag_counts_step (s s' : DMRoomMap) :
  flag_counts s -> flag_step s s' -> flag_counts s'.
Proof.
  unfold flag_counts. intros Hc [[Hf Hw]|[Hf [Hf' [w Hw]]]].
  - now rewrite Hf, Hw.
  - rewrite Hf', Hw, length_app. rewrite Hc, Hf. reflexivity.
Qed.

Lemma flag_raised_step (s s' : DMRoomMap) :
  hasSentOutPatchDirectAccountDataPatch s = true -> flag_step s s' ->
  hasSentOutPatchDirectAccountDataPatch s' = true /\ write_backs s' = write_backs s.
Proof.
  intros Ht [[Hf Hw]|[Hf _]]; [|congruence]. split; congruence.
Qed.

Lemma run_flag_counts (l : list Moment) (s : DMRoomMap) :
  flag_counts s -> flag_counts (run s l).
Proof.
  revert s. induction l as [|m l IH]; intros s H; [assumption|].
  simpl. apply IH. apply flag_counts_step with (s := s); [assumption | apply step_flag_step].
Qed.

Lemma run_flag_raised (l : list Moment) (s : DMRoomMap) :
  hasSentOutPatchDirectAccountDataPatch s = true ->
  hasSentOutPatchDirectAccountDataPatch (run s l) = true /\
  write_backs (run s l) = write_backs s.
Proof.
  revert s. induction l as [|m l IH]; intros s H; [auto|].
  simpl. destruct (flag_raised_step H (step_flag_step s m)) as [H1 H2].
  destruct (IH _ H1) as [H3 H4]. split; congruence.
Qed.

Lemma changes_self_nonempty (c : MatrixClient) (m : DirectMap) :
  changes c m <> [] -> exists r rs, obj_get (getUserId c) m = Some (r :: rs).
Proof.
  unfold changes. destruct (obj_get (getUserId c) m) as [[|r rs]|]; simpl; try congruence.
  eauto.
Qed.

(** The rebuild that raises the flag. *)
Lemma getUserToRooms_first_repair (c : MatrixClient) (s : DMRoomMap) :
  userToRooms s = None ->
  hasSentOutPatchDirectAccountDataPatch s = false ->
  changes c (mDirectEvent s) <> [] ->
  let s' := snd (getUserToRooms c s) in
  hasSentOutPatchDirectAccountDataPatch s' = true /\
  trace s' = trace s ++
             [LoggerWarn warn_text;
              SetAccountData EventType_Direct (snd (patchUpSelfDMs c (mDirectEvent s)))].
Proof.
  intros Hu Hf Hch s'.
  pose proof (getUserToRooms_trace c s Hu) as Htr. fold s' in Htr.
  destruct (changes_self_nonempty c _ Hch) as [r [rs Hself]].
  assert (Hb : fst (patchUpSelfDMs c (mDirectEvent s)) = true).
  { rewrite patchUpSelfDMs_flag. destruct (changes c (mDirectEvent s)); [congruence | reflexivity]. }
  rewrite Hself, Hb, Hf in Htr. simpl in Htr. split; [|assumption].
  unfold s', getUserToRooms. rewrite Hu, Hself.
  destruct (patchUpSelfDMs c (mDirectEvent s)) as [b p]. simpl in *. subst b.
  rewrite Hf. reflexivity.
Qed.

(** C2.  In the life of one instance, from its construction on and whatever
    is called on it or notified to it, at most one write-back of the
    corrected Direct Map is attempted: the flag is raised exactly when the
    write-back has been made; the first rebuild that reassigns a room, the
    flag being down, raises the flag and logs the warning and then attempts
    the write-back of the repaired map; and once the flag is raised no later
    action adds a write-back.  The outcome of the write is not looked at. *)
Theorem one_write_back_per_instance (c0 : MatrixClient) (l : list Moment) :
  let s := run (constructor c0) l in
  writes (trace s) <= 1 /\
  (hasSentOutPatchDirectAccountDataPatch s = true <-> writes (trace s) = 1) /\
  (forall l', hasSentOutPatchDirectAccountDataPatch s = true ->
              write_backs (run s l') = write_backs s) /\
  (forall c,
      userToRooms s = None ->
      hasSentOutPatchDirectAccountDataPatch s = false ->
      changes c (mDirectEvent s) <> [] ->
      let s' := snd (getUserToRooms c s) in
      hasSentOutPatchDirectAccountDataPatch s' = true /\
      trace s' = trace s ++
                 [LoggerWarn warn_text;
                  SetAccountData EventType_Direct (snd (patchUpSelfDMs c (mDirectEvent s)))]).
Proof.
  intros s.
  assert (Hc : flag_counts s).
  { apply run_flag_counts. reflexivity. }
  unfold flag_counts in Hc. unfold writes. fold (write_backs s).
  repeat split.
  - rewrite Hc. destruct (hasSentOutPatchDirectAccountDataPatch s); lia.
  - intros H. now rewrite Hc, H.
  - intros H. rewrite Hc in H.
    destruct (hasSentOutPatchDirectAccountDataPatch s); [reflexivity | discriminate].
  - intros l' H. now apply run_flag_raised.
  - now apply getUserToRooms_first_repair.
  - now apply getUserToRooms_first_repair.
Qed.

Lemma one_write_back_per_instance_witness :
  let c := Sample.misfiled in
  let again := mkEvent EventType_Direct [(Sample.me, [Sample.r1])] in
  let l := [mkMoment c c CallStart;
            mkMoment c c (EmitAccountData again);
            mkMoment c c (CallGetDMRoomsForUserId Sample.alice)] in
  writes (trace (run (constructor c) l)) = 1 /\
  warns (trace (run (constructor c) l)) = 2.
Proof.
  intros c again l.
  destruct (@one_write_back_per_instance c l) as [_ [H _]].
  split; [apply H|]; reflexivity.
Defined.

(** An instance made anew starts with the flag down: in one process, on a
    session whose account data still has the self-chat, each of two shared
    instances attempts a write-back. *)
Lemma second_instance_writes_again :
  ~ (forall (peg : MatrixClient) (l : list ProcessAction),
        writes (process_trace (process_run peg l)) <= 1).
Proof.
  intros H.
  specialize (H Sample.misfiled
                [CallMakeShared; CallOnShared (CallGetDMRoomsForUserId Sample.alice);
                 CallMakeShared; CallOnShared (CallGetDMRoomsForUserId Sample.alice)]).
  vm_compute in H. lia.
Qed.

(** ** Absent and untyped payloads *)

Lemma raw_includes_typed (s : list string) (x : string) :
  existsb (Raw.atom_eqb (Raw.AStr x)) (map Raw.AStr s) = includes s x.
Proof.
  unfold includes. induction s as [|y s IH]; simpl; [reflexivity|]. now rewrite IH.
Qed.

Lemma raw_set_add_typed (s : list string) (x : string) :
  Raw.set_add (map Raw.AStr s) (Raw.AStr x) = map Raw.AStr (set_add s x).
Proof.
  unfold Raw.set_add, set_add. rewrite raw_includes_typed.
  destruct (includes s x); [reflexivity|]. now rewrite map_app.
Qed.

Lemma raw_fold_set_add_typed (ids s : list string) :
  fold_left Raw.set_add (map Raw.AStr ids) (map Raw.AStr s) =
  map Raw.AStr (fold_left set_add ids s).
Proof.
  revert s. induction ids as [|x ids IH]; intros s; simpl; [reflexivity|].
  now rewrite raw_set_add_typed, IH.
Qed.

Lemma raw_reduce_typed (m : DirectMap) (prev : list string) :
  Raw.reduce (obj_values (Raw.of_typed m)) (map Raw.AStr prev) =
  Raw.Normal
    (map Raw.AStr
         (fold_left (fun prevRoomIds roomIds => fold_left set_add roomIds prevRoomIds)
                    (obj_values m) prev)).
Proof.
  revert prev. induction m as [|[k ids] m IH]; intros prev; simpl; [reflexivity|].
  rewrite raw_fold_set_add_typed. apply IH.
Qed.

Lemma of_typed_set (k : string) (ids : list string) (m : DirectMap) :
  Raw.of_typed (obj_set k ids m) = obj_set k (Raw.VArr (map Raw.AStr ids)) (Raw.of_typed m).
Proof.
  induction m as [|[k' ids'] m IH]; simpl; [reflexivity|].
  destruct (String.eqb k k'); simpl; [reflexivity|]. now rewrite IH.
Qed.

Lemma of_typed_copy_from (m acc : DirectMap) :
  fold_left (fun a kv => obj_set (fst kv) (snd kv) a) (Raw.of_typed m) (Raw.of_typed acc) =
  Raw.of_typed (fold_left (fun a kv => obj_set (fst kv) (snd kv) a) m acc).
Proof.
  revert acc. induction m as [|[k ids] m IH]; intros acc; simpl; [reflexivity|].
  rewrite <- of_typed_set. apply IH.
Qed.

Lemma of_typed_copy (m : DirectMap) :
  obj_copy (Raw.of_typed m) = Raw.of_typed (obj_copy m).
Proof. apply (of_typed_copy_from m []). Qed.

(** C9.  Absent account data gives the empty map, on which the
    all-room-identifiers query returns the empty set, rooms-for-user the empty
    list and user-for-room the invite hint of the room, if any; and on every
    content whose values are lists of room identifiers, as the class types
    it, the all-room-identifiers query completes and returns the room
    identifiers of the typed reading. *)
Theorem absent_or_typed_payload :
  Raw.constructor None = [] /\
  Raw.getRoomIds (Raw.constructor None) = Raw.Normal [] /\
  (forall c,
      getAccountData c EventType_Direct = None ->
      mDirectEvent (constructor c) = [] /\
      getRoomIds (constructor c) = [] /\
      (forall u, fst (getDMRoomsForUserId c u (constructor c)) = []) /\
      (forall r, fst (getUserIdForRoomId c r (constructor c)) = invite_hint c r) /\
      (forall peg ids, fst (getDMRoomForIdentifiers c peg ids (constructor c)) = None)) /\
  (forall c ev,
      getAccountData c EventType_Direct = Some ev ->
      Raw.getRoomIds (Raw.constructor (Some (Raw.of_typed (getContent ev)))) =
      Raw.Normal (map Raw.AStr (getRoomIds (constructor c)))).
Proof.
  split; [reflexivity|]. split; [reflexivity|]. split.
  - intros c H.
    assert (Hc : constructor c = mkDMRoomMap None None false [] false []).
    { unfold constructor. now rewrite H. }
    rewrite Hc. repeat split.
    + intros r. unfold getUserIdForRoomId, invite_hint. simpl.
      now destruct (getRoom c r).
    + intros peg ids. rewrite getDMRoomForIdentifiers_spec. simpl.
      unfold shared_by, rooms_of. simpl. reflexivity.
  - intros c ev H. unfold Raw.getRoomIds, Raw.constructor, getRoomIds, constructor.
    rewrite H, of_typed_copy. simpl. apply (raw_reduce_typed (obj_copy (getContent ev)) []).
Qed.

Lemma absent_or_typed_payload_witness :
  mDirectEvent (constructor Sample.blank) = [] /\
  Raw.getRoomIds
    (Raw.constructor
       (Some (Raw.of_typed [(Sample.alice, [Sample.r1; Sample.r2]);
                            (Sample.bob, [Sample.r2; Sample.r3])]))) =
  Raw.Normal [Raw.AStr Sample.r1; Raw.AStr Sample.r2; Raw.AStr Sample.r3].
Proof.
  destruct absent_or_typed_payload as [_ [_ [H1 H2]]]. split.
  - apply (H1 Sample.blank). reflexivity.
  - apply (H2 Sample.common (mkEvent EventType_Direct
                               [(Sample.alice, [Sample.r1; Sample.r2]);
                                (Sample.bob, [Sample.r2; Sample.r3])])).
    reflexivity.
Defined.

(** Content with a value that is not a list is kept as it is, and the
    all-room-identifiers query raises on it. *)
Lemma malformed_payload_raises :
  ~ (forall payload : option Raw.content,
        exists ids, Raw.getRoomIds (Raw.constructor payload) = Raw.Normal ids).
Proof.
  intros H.
  destruct (H (Some [(Sample.alice, Raw.VAtom Raw.ANull)])) as [ids Hids].
  vm_compute in Hids. discriminate.
Qed.

(** * Further properties of the index *)

Lemma map_defined_nil (A B : Type) (f : A -> option B) (l : list A) :
  (forall x, In x l -> f x = None) -> map_defined f l = [].
Proof.
  induction l as [|a l IH]; intros H; simpl; [reflexivity|].
  rewrite H by now left. apply IH. intros x Hx. apply H. now right.
Qed.

Lemma kept_of_guessed (c : MatrixClient) (m : DirectMap) (selfRoomIds : list string)
  (r : string) :
  obj_get (getUserId c) m = Some selfRoomIds ->
  In r selfRoomIds ->
  (In r (kept_of c m selfRoomIds) <-> guessed c (getUserId c) r = None).
Proof.
  intros Hself Hr. rewrite kept_of_In. split.
  - intros [_ Hno]. destruct (guessed c (getUserId c) r) as [ids|] eqn:E; [|reflexivity].
    exfalso. destruct (guessed_spec c r E) as [Hsnd _].
    apply (Hno (fst ids)). unfold changes. rewrite Hself. apply map_defined_In.
    exists r. split; [assumption|]. rewrite E. f_equal. destruct ids. simpl in *. now subst.
  - intros Hg. split; [assumption|]. intros u Hu.
    destruct (changes_In c _ _ Hu) as [self' [_ [_ Hg']]]. simpl in Hg'. congruence.
Qed.

(** X1.  The repair is idempotent: in a repaired map no room of the own list has
    a guess for another user, and a second pass reports that nothing needed
    patching and leaves the map as it is. *)
Theorem repair_idempotent (c : MatrixClient) (m : DirectMap) :
  let repaired := snd (patchUpSelfDMs c m) in
  changes c repaired = [] /\
  patchUpSelfDMs c repaired = (false, repaired).
Proof.
  intros repaired.
  assert (H : changes c repaired = []).
  { unfold changes. destruct (obj_get (getUserId c) m) as [self|] eqn:E.
    - unfold repaired. rewrite (patchUpSelfDMs_get_me c m E).
      apply map_defined_nil. intros r Hr.
      apply (kept_of_guessed c m r E); [|assumption].
      apply kept_of_In in Hr. tauto.
    - unfold repaired. rewrite patchUpSelfDMs_unchanged.
      + simpl. now rewrite E.
      + unfold changes. now rewrite E. }
  split; [assumption | now apply patchUpSelfDMs_unchanged].
Qed.

(** X2.  Once User->Rooms has been built by a query, every later rooms-for-user
    query, for any user and whatever the session has become since, is
    answered from the index built then and leaves the instance as it is:
    nothing is rebuilt, logged or written. *)
Theorem index_built_once (c c' : MatrixClient) (s : DMRoomMap) (u v : string) :
  let s1 := snd (getDMRoomsForUserId c u s) in
  getDMRoomsForUserId c' v s1 = (rooms_of (fst (getUserToRooms c s)) v, s1).
Proof.
  intros s1. apply getDMRoomsForUserId_cached.
  unfold s1. rewrite getDMRoomsForUserId_index. simpl. apply getUserToRooms_post.
Qed.

Lemma getUserToRooms_roomToUser (c : MatrixClient) (s : DMRoomMap) :
  roomToUser (snd (getUserToRooms c s)) = roomToUser s.
Proof.
  destruct (userToRooms s) as [m|] eqn:E.
  - now rewrite (getUserToRooms_cached c s E).
  - now destruct (getUserToRooms_rebuild c s E) as [_ [_ [_ [H _]]]].
Qed.

(** X3.  Room->User is lazy: the rooms-for-user query and the common-room query
    never build it (and never drop it); they build User->Rooms only. *)
Theorem rooms_queries_leave_roomToUser
  (c peg : MatrixClient) (s : DMRoomMap) (u : string) (ids : list string) :
  roomToUser (snd (getDMRoomsForUserId c u s)) = roomToUser s /\
  roomToUser (snd (getDMRoomForIdentifiers c peg ids s)) = roomToUser s /\
  userToRooms (snd (getDMRoomsForUserId c u s)) <> None /\
  userToRooms (snd (getDMRoomForIdentifiers c peg ids s)) <> None.
Proof.
  rewrite getDMRoomsForUserId_index, getDMRoomForIdentifiers_spec. simpl.
  rewrite getUserToRooms_roomToUser, getUserToRooms_post.
  repeat split; discriminate.
Qed.

(** X4.  A rebuild for a user with no own entry, or with an empty own list, is
    silent: the index is the stored map itself, nothing is logged or written
    and the flag is not touched. *)
Theorem rebuild_without_self_rooms (c : MatrixClient) (s : DMRoomMap) :
  userToRooms s = None ->
  rooms_of (mDirectEvent s) (getUserId c) = [] ->
  let s' := snd (getUserToRooms c s) in
  fst (getUserToRooms c s) = mDirectEvent s /\
  mDirectEvent s' = mDirectEvent s /\
  trace s' = trace s /\
  hasSentOutPatchDirectAccountDataPatch s' = hasSentOutPatchDirectAccountDataPatch s.
Proof.
  intros Hu Hself s'. unfold s', getUserToRooms. rewrite Hu.
  unfold rooms_of in Hself.
  destruct (obj_get (getUserId c) (mDirectEvent s)) as [[|r rs]|]; try discriminate;
    simpl; auto.
Qed.

Lemma rebuild_without_self_rooms_witness :
  let c := Sample.common in
  trace (snd (getUserToRooms c (constructor c))) = [] /\
  fst (getUserToRooms c (constructor c)) = mDirectEvent (constructor c).
Proof.
  intros c.
  destruct (@rebuild_without_self_rooms c (constructor c) eq_refl eq_refl)
    as [H1 [_ [H2 _]]].
  split; assumption.
Defined.





Lemma filter_none (A : Type) (f : A -> bool) (l : list A) :
  (forall x, In x l -> f x = false) -> filter f l = [].
Proof.
  induction l as [|a l IH]; intros H; simpl; [reflexivity|].
  rewrite H by now left. apply IH. intros x Hx. apply H. now right.
Qed.

Lemma shared_by_nil (rooms : string -> list string) (ids : list string) (id : string) :
  In id ids -> rooms id = [] -> shared_by rooms ids = [].
Proof.
  intros Hin Hnil. destruct ids as [|id0 rest]; [destruct Hin|].
  unfold shared_by. simpl. destruct Hin as [->|Hin].
  - now rewrite Hnil.
  - apply filter_none. intros r _. apply Bool.not_true_iff_false. intros H.
    rewrite forallb_forall in H. specialize (H id Hin). rewrite Hnil in H. discriminate.
Qed.

(** X6.  An identifier without rooms in the index, such as an e-mail address,
    anywhere in the list makes the common-room query return no room. *)
Theorem common_room_unknown_identifier
  (c peg : MatrixClient) (s : DMRoomMap) (ids : list string) (id : string) :
  In id ids ->
  fst (getDMRoomsForUserId c id s) = [] ->
  fst (getDMRoomForIdentifiers c peg ids s) = None.
Proof.
  intros Hin Hnil. rewrite getDMRoomsForUserId_index in Hnil. simpl in Hnil.
  rewrite getDMRoomForIdentifiers_spec. simpl.
  now rewrite (shared_by_nil _ ids id Hin Hnil).
Qed.

Lemma common_room_unknown_identifier_witness :
  let c := Sample.common in
  fst (getDMRoomForIdentifiers c c [Sample.alice; "bob@example.org"] (constructor c)) = None.
Proof.
  intros c.
  apply (@common_room_unknown_identifier c c (constructor c)
           [Sample.alice; "bob@example.org"] "bob@example.org").
  - right. now left.
  - reflexivity.
Defined.

(** ** What the repair keeps *)

Lemma obj_set_keys_incl (V : Type) (k k' : string) (v : V) (o : JsObj.t V) :
  In k (obj_keys o) -> In k (obj_keys (obj_set k' v o)).
Proof.
  intros H. rewrite obj_keys_set. destruct (obj_get k' o); [assumption|].
  apply in_or_app. now left.
Qed.

Lemma obj_set_keys_inv (V : Type) (k k' : string) (v : V) (o : JsObj.t V) :
  In k (obj_keys (obj_set k' v o)) -> In k (obj_keys o) \/ k = k'.
Proof.
  rewrite obj_keys_set. destruct (obj_get k' o); [auto|].
  rewrite in_app_iff. simpl. intuition.
Qed.

Lemma fold_reassign_keys_incl (changed : list (string * string)) (u : DirectMap) (k : string) :
  In k (obj_keys u) -> In k (obj_keys (fold_left reassign changed u)).
Proof.
  revert u. induction changed as [|[k' r] t IH]; intros u H; simpl; [assumption|].
  apply IH. destruct (obj_get k' u); now apply obj_set_keys_incl.
Qed.

Lemma fold_reassign_keys_inv (changed : list (string * string)) (u : DirectMap) (k : string) :
  In k (obj_keys (fold_left reassign changed u)) ->
  In k (obj_keys u) \/ exists r, In (k, r) changed.
Proof.
  revert u. induction changed as [|[k' r] t IH]; intros u H; simpl in *; [auto|].
  apply IH in H. destruct H as [H|[r' H]]; [|eauto].
  assert (H' : In k (obj_keys u) \/ k = k').
  { destruct (obj_get k' u); now apply obj_set_keys_inv in H. }
  destruct H' as [H'| ->]; eauto.
Qed.

(** X7.  The repair deletes no entry and adds entries for guessed users only; it
    takes no room out of the list of another user; and of the rooms of the own
    list it keeps exactly those for which the session has no room object or
    no guess of another user. *)
Theorem repair_keeps_entries (c : MatrixClient) (m : DirectMap) (k r : string) :
  let repaired := snd (patchUpSelfDMs c m) in
  (In k (obj_keys m) -> In k (obj_keys repaired)) /\
  (In k (obj_keys repaired) -> In k (obj_keys m) \/ exists r', In (k, r') (changes c m)) /\
  (k <> getUserId c -> In r (rooms_of m k) -> In r (rooms_of repaired k)) /\
  (In r (rooms_of m (getUserId c)) ->
   (In r (rooms_of repaired (getUserId c)) <-> guessed c (getUserId c) r = None)).
Proof.
  intros repaired. split; [|split; [|split]].
  - intros H. unfold repaired, patchUpSelfDMs.
    destruct (obj_get (getUserId c) m) as [self|]; [|assumption].
    destruct (Nat.eqb _ 0); [assumption|]. simpl.
    apply fold_reassign_keys_incl. now apply obj_set_keys_incl.
  - unfold repaired, patchUpSelfDMs, changes.
    destruct (obj_get (getUserId c) m) as [self|] eqn:E; [|auto].
    destruct (Nat.eqb _ 0); [auto|]. simpl. intros H.
    apply fold_reassign_keys_inv in H. destruct H as [H|H]; [|auto].
    apply obj_set_keys_inv in H. destruct H as [H| ->]; [auto|].
    left. destruct (in_dec string_dec (getUserId c) (obj_keys m)) as [Hin|Hn]; [assumption|].
    apply obj_get_None_keys in Hn. congruence.
  - intros Hk Hr. unfold repaired. rewrite rooms_of_patch_other by assumption.
    destruct (reassigned_to k (changes c m)); [assumption|].
    rewrite uniq_In, in_app_iff. now left.
  - intros Hr. unfold repaired. rewrite rooms_of_patch_me.
    unfold rooms_of in *. destruct (obj_get (getUserId c) m) as [self|] eqn:E; [|destruct Hr].
    now apply kept_of_guessed.
Qed.

Lemma repair_keeps_entries_witness :
  let c := MoreSamples.mixed in
  rooms_of (snd (patchUpSelfDMs c (mDirectEvent (constructor c)))) Sample.me = [Sample.r1] /\
  In Sample.me (obj_keys (snd (patchUpSelfDMs c (mDirectEvent (constructor c))))).
Proof.
  intros c. split; [reflexivity|].
  destruct (@repair_keeps_entries c (mDirectEvent (constructor c)) Sample.me Sample.r1)
    as [H _].
  apply H. now left.
Defined.

(** ** User for a room that is not listed *)

(** X9.  For a room that no list of the repaired map holds, the user-for-room
    query on an index that is not built yet returns what the room object says
    of the inviter of a direct invite, and nothing when the session has no
    such room; Room->User is built by the call all the same. *)
Theorem user_for_unlisted_room (c : MatrixClient) (s : DMRoomMap) (R : string) :
  roomToUser s = None ->
  (forall k, ~ In R (rooms_of (fst (getUserToRooms c s)) k)) ->
  fst (getUserIdForRoomId c R s) = invite_hint c R /\
  (getRoom c R = None -> fst (getUserIdForRoomId c R s) = None) /\
  roomToUser (snd (getUserIdForRoomId c R s)) = Some (inverted (fst (getUserToRooms c s))).
Proof.
  intros Hr Hno. rewrite getUserIdForRoomId_unbuilt by assumption. simpl.
  apply last_lister_None in Hno. rewrite Hno. split; [reflexivity|]. split.
  - intros Hroom. unfold invite_hint. now rewrite Hroom.
  - unfold populateRoomToUser. rewrite getUserToRooms_set_roomToUser. reflexivity.
Qed.

Lemma user_for_unlisted_room_witness :
  let c := MoreSamples.pending in
  fst (getUserIdForRoomId c Sample.r3 (constructor c)) = Some Sample.bob /\
  fst (getUserIdForRoomId c Sample.r2 (constructor c)) = None.
Proof.
  intros c. split.
  - destruct (@user_for_unlisted_room c (constructor c) Sample.r3 eq_refl) as [H _].
    + intros k. vm_compute.
      repeat match goal with
             | |- context [if ?b then _ else _] => destruct b
             end; intuition discriminate.
    + exact H.
  - destruct (@user_for_unlisted_room c (constructor c) Sample.r2 eq_refl) as [_ [H _]].
    + intros k. vm_compute.
      repeat match goal with
             | |- context [if ?b then _ else _] => destruct b
             end; intuition discriminate.
    + apply H. reflexivity.
Defined.

(** ** Which room the unique-1:1 query keeps *)

Lemma map_defined_map (A B C : Type) (g : A -> B) (h : B -> option C) (l : list A) :
  map_defined h (map g l) = map_defined (fun x => h (g x)) l.
Proof.
  induction l as [|a l IH]; simpl; [reflexivity|]. now rewrite IH.
Qed.

Lemma map_defined_ext_in (A B : Type) (f g : A -> option B) (l : list A) :
  (forall x, In x l -> f x = g x) -> map_defined f l = map_defined g l.
Proof.
  induction l as [|a l IH]; intros H; simpl; [reflexivity|].
  rewrite <- H by now left. rewrite IH; [reflexivity|].
  intros x Hx. apply H. now right.
Qed.

Lemma map_defined_app (A B : Type) (f : A -> option B) (l1 l2 : list A) :
  map_defined f (l1 ++ l2) = map_defined f l1 ++ map_defined f l2.
Proof.
  induction l1 as [|a l1 IH]; simpl; [reflexivity|].
  destruct (f a); simpl; now rewrite IH.
Qed.

Lemma reduce_set_untouched (V : Type) (l : list (string * V)) (acc : JsObj.t V) (k : string) :
  (forall v, ~ In (k, v) l) ->
  obj_get k (fold_left (fun obj r => obj_set (fst r) (snd r) obj) l acc) = obj_get k acc.
Proof.
  revert acc. induction l as [|[k0 v0] l IH]; intros acc H; simpl; [reflexivity|].
  rewrite IH.
  - apply obj_get_set_neq. intros ->. apply (H v0). now left.
  - intros v Hv. apply (H v). now right.
Qed.

Lemma reduce_set_last (V : Type) (l1 l2 : list (string * V)) (acc : JsObj.t V)
  (k : string) (v : V) :
  (forall v', ~ In (k, v') l2) ->
  obj_get k (fold_left (fun obj r => obj_set (fst r) (snd r) obj) (l1 ++ (k, v) :: l2) acc)
  = Some v.
Proof.
  intros H. rewrite fold_left_app. simpl.
  rewrite reduce_set_untouched by assumption. apply obj_get_set_eq.
Qed.

Lemma getUniqueRoomsWithIndividuals_individual
  (c : MatrixClient) (s : DMRoomMap) (r2u : JsObj.t string) :
  roomToUser s = Some r2u ->
  fst (getUniqueRoomsWithIndividuals c s) =
  fold_left (fun obj r => obj_set (fst r) (snd r) obj)
            (map_defined (individual c r2u) (obj_keys r2u)) [].
Proof.
  intros H. rewrite (getUniqueRoomsWithIndividuals_built c s H). simpl.
  rewrite map_defined_map. f_equal. apply map_defined_ext_in.
  intros r Hr. unfold individual.
  destruct (obj_get r r2u) as [u|] eqn:E; [reflexivity|].
  apply obj_get_None_keys in E. contradiction.
Qed.

Lemma individual_Some (c : MatrixClient) (r2u : JsObj.t string) (r U : string) (room : Room) :
  individual c r2u r = Some (U, room) ->
  obj_get r r2u = Some U /\ is_pair c r.
Proof.
  unfold individual, is_pair.
  destruct (obj_get r r2u) as [u|]; [|discriminate].
  destruct (getRoom c r) as [room'|]; [|discriminate].
  destruct (truthy u); simpl; [|discriminate].
  destruct (Nat.eqb (getInvitedAndJoinedMemberCount room') 2) eqn:En; [|discriminate].
  intros [= -> ->]. apply Nat.eqb_eq in En. eauto.
Qed.

(** X10.  Of the rooms of two members that Room->User maps to one user, the
    unique-1:1 query keeps the one whose key comes last in Room->User. *)
Theorem unique_room_is_last_pair
  (c : MatrixClient) (s : DMRoomMap) (r2u : JsObj.t string)
  (before after : list string) (R U : string) (room : Room) :
  roomToUser s = Some r2u ->
  obj_keys r2u = before ++ R :: after ->
  obj_get R r2u = Some U ->
  U <> "" ->
  getRoom c R = Some room ->
  getInvitedAndJoinedMemberCount room = 2 ->
  (forall R', In R' after -> obj_get R' r2u = Some U -> ~ is_pair c R') ->
  obj_get U (fst (getUniqueRoomsWithIndividuals c s)) = Some room.
Proof.
  intros Hs Hkeys HR HU Hroom Hcount Hafter.
  rewrite (getUniqueRoomsWithIndividuals_individual c s Hs), Hkeys, map_defined_app.
  simpl.
  assert (Hind : individual c r2u R = Some (U, room)).
  { unfold individual, truthy. rewrite HR, Hroom, Hcount.
    apply String.eqb_neq in HU. now rewrite HU. }
  rewrite Hind. apply reduce_set_last.
  intros room' Hin. apply map_defined_In in Hin. destruct Hin as [R' [HR' Hi]].
  apply individual_Some in Hi. destruct Hi as [Hget Hpair].
  exact (Hafter R' HR' Hget Hpair).
Qed.

Lemma unique_room_is_last_pair_witness :
  let c := Sample.two_with_alice in
  obj_get Sample.alice
          (fst (getUniqueRoomsWithIndividuals c (snd (start c (constructor c))))) =
  Some (Sample.pair_room Sample.r2 Sample.alice).
Proof.
  intros c.
  apply (@unique_room_is_last_pair c (snd (start c (constructor c)))
           [(Sample.r1, Sample.alice); (Sample.r2, Sample.alice); (Sample.r3, Sample.bob)]
           [Sample.r1] [Sample.r3] Sample.r2 Sample.alice
           (Sample.pair_room Sample.r2 Sample.alice));
    try reflexivity.
  - discriminate.
  - intros R' [<-|[]] Hget. vm_compute in Hget. discriminate.
Defined.

(** ** The indexes follow the stored map *)

Lemma populateRoomToUser_inverted (c : MatrixClient) (s : DMRoomMap) :
  roomToUser (snd (populateRoomToUser c s)) = Some (inverted (fst (getUserToRooms c s))).
Proof.
  unfold populateRoomToUser. rewrite getUserToRooms_set_roomToUser. reflexivity.
Qed.

Lemma inverted_get (u : DirectMap) (R : string) :
  obj_get R (inverted u) = last_lister u R.
Proof. unfold inverted, last_lister. apply fold_populate_get. Qed.

Lemma consistent_constructor (c : MatrixClient) : consistent (constructor c).
Proof.
  unfold consistent, constructor. simpl. split; [|split].
  - intros m H. discriminate H.
  - intros r2u H. discriminate H.
  - apply obj_copy_NoDup.
Qed.

Lemma consistent_getUserToRooms (c : MatrixClient) (s : DMRoomMap) :
  consistent s -> consistent (snd (getUserToRooms c s)).
Proof.
  intros [H1 [H2 H3]]. destruct (userToRooms s) as [m|] eqn:E.
  - rewrite (getUserToRooms_cached c s E). simpl. unfold consistent. rewrite E. auto.
  - destruct (getUserToRooms_rebuild c s E) as [Hfst [Hc [Hm [Hr _]]]].
    unfold consistent. rewrite Hc, Hm, Hr. split; [|split].
    + intros m [= <-]. reflexivity.
    + intros r2u H. destruct (H2 _ H) as [Hu _]. congruence.
    + rewrite Hfst. now apply patchUpSelfDMs_NoDup.
Qed.

Lemma consistent_populateRoomToUser (c : MatrixClient) (s : DMRoomMap) :
  consistent s -> consistent (snd (populateRoomToUser c s)).
Proof.
  intros H. apply (consistent_getUserToRooms c) in H. destruct H as [H1 [_ H3]].
  destruct (populateRoomToUser_spec c s) as [Hu [_ [_ [Hm _]]]].
  pose proof (populateRoomToUser_inverted c s) as Hr.
  pose proof (H1 _ (getUserToRooms_post c s)) as Hidx.
  unfold consistent. rewrite Hu, Hm, Hr, <- Hidx. split; [|split].
  - intros m [= <-]. reflexivity.
  - intros r2u [= <-]. split; reflexivity.
  - now rewrite Hidx.
Qed.

Lemma consistent_onAccountData (ev : MatrixEvent) (s : DMRoomMap) :
  consistent s -> consistent (onAccountData ev s).
Proof.
  intros H. unfold onAccountData. destruct (String.eqb _ _); [|assumption].
  unfold consistent. simpl. split; [|split].
  - intros m H'. discriminate H'.
  - intros r2u H'. discriminate H'.
  - apply obj_copy_NoDup.
Qed.

Lemma consistent_set_listening (b : bool) (s : DMRoomMap) :
  consistent s -> consistent (set_listening b s).
Proof. intros H. exact H. Qed.

Lemma consistent_step (s : DMRoomMap) (m : Moment) : consistent s -> consistent (step s m).
Proof.
  intros H. unfold step. destruct (action m) as [| |ev|u|ids|r| |].
  - unfold start.
    pose proof (consistent_populateRoomToUser (now_client m) H) as Hp.
    destruct (populateRoomToUser (now_client m) s) as [[] s1]. exact Hp.
  - exact H.
  - destruct (listening s); [now apply consistent_onAccountData | assumption].
  - rewrite getDMRoomsForUserId_index. now apply consistent_getUserToRooms.
  - rewrite getDMRoomForIdentifiers_spec. now apply consistent_getUserToRooms.
  - rewrite getUserIdForRoomId_state. destruct (roomToUser s); [assumption|].
    now apply consistent_populateRoomToUser.
  - now rewrite getUniqueRoomsWithIndividuals_state.
  - assumption.
Qed.

Lemma consistent_run (l : list Moment) (s : DMRoomMap) : consistent s -> consistent (run s l).
Proof.
  revert s. induction l as [|m l IH]; intros s H; [assumption|].
  simpl. apply IH. now apply consistent_step.
Qed.

(** X11.  Whatever has been called on an instance or notified to it since its
    construction, a built index is never stale: User->Rooms is the stored
    (repaired) map itself, Room->User maps every room to the last user of the
    stored map listing it, and every room a rooms-for-user query returns is
    one of the room identifiers the all-room-identifiers query returns after
    it. *)
Theorem indexes_follow_stored_map (c0 : MatrixClient) (l : list Moment) :
  let s := run (constructor c0) l in
  (forall m, userToRooms s = Some m -> m = mDirectEvent s) /\
  (forall r2u, roomToUser s = Some r2u ->
               userToRooms s = Some (mDirectEvent s) /\
               forall R, obj_get R r2u = last_lister (mDirectEvent s) R) /\
  (forall c u r,
      In r (fst (getDMRoomsForUserId c u s)) ->
      In r (getRoomIds (snd (getDMRoomsForUserId c u s)))).
Proof.
  intros s.
  assert (Hc : consistent s) by (apply consistent_run, consistent_constructor).
  split; [apply Hc|]. split.
  - intros r2u Hr. destruct Hc as [_ [H2 _]]. destruct (H2 _ Hr) as [Hu ->].
    split; [assumption | apply inverted_get].
  - intros c u r. rewrite getDMRoomsForUserId_index. simpl. intros Hin.
    destruct (consistent_getUserToRooms c Hc) as [H1 [_ H3]].
    rewrite (H1 _ (getUserToRooms_post c s)) in Hin.
    apply getRoomIds_listed; [assumption | eauto].
Qed.

(** X12.  Whenever Room->User is built, its rooms are exactly the room identifiers
    of the all-room-identifiers query. *)
Theorem roomToUser_keys_are_room_ids (c0 : MatrixClient) (l : list Moment) :
  let s := run (constructor c0) l in
  forall r2u R, roomToUser s = Some r2u -> (In R (obj_keys r2u) <-> In R (getRoomIds s)).
Proof.
  intros s r2u R Hr.
  assert (Hc : consistent s) by (apply consistent_run, consistent_constructor).
  destruct Hc as [_ [H2 H3]]. destruct (H2 _ Hr) as [_ ->].
  rewrite (getRoomIds_listed s R H3).
  destruct (in_dec string_dec R (obj_keys (inverted (mDirectEvent s)))) as [Hin|Hn].
  - split; [|auto]. intros _.
    destruct (last_lister (mDirectEvent s) R) as [k|] eqn:E.
    + exists k. now apply last_lister_Some.
    + rewrite <- inverted_get in E. apply obj_get_None_keys in E. contradiction.
  - split; [contradiction|]. intros [k Hk]. exfalso.
    apply obj_get_None_keys in Hn. rewrite inverted_get in Hn.
    destruct (last_lister_complete _ _ _ Hk) as [k' Hk']. congruence.
Qed.

(** ** Between two notifications *)

Lemma same_index_refl (s : DMRoomMap) : same_index s s.
Proof. unfold same_index. auto. Qed.

Lemma same_index_trans (s1 s2 s3 : DMRoomMap) :
  same_index s1 s2 -> same_index s2 s3 -> same_index s1 s3.
Proof.
  unfold same_index. intros [A1 [A2 [A3 [A4 A5]]]] [B1 [B2 [B3 [B4 B5]]]].
  repeat split; congruence.
Qed.

Lemma same_index_built (s s' : DMRoomMap) : same_index s s' -> built s -> built s'.
Proof.
  intros [H1 [H2 _]] [m [Hu Hr]]. exists m. split; congruence.
Qed.

Lemma built_start (c : MatrixClient) (s : DMRoomMap) : built (snd (start c s)).
Proof.
  unfold start.
  pose proof (populateRoomToUser_inverted c s) as Hr.
  destruct (populateRoomToUser_spec c s) as [Hu _].
  destruct (populateRoomToUser c s) as [[] s1]. simpl in *.
  exists (fst (getUserToRooms c s)). auto.
Qed.

Lemma populateRoomToUser_built (c : MatrixClient) (s : DMRoomMap) :
  built s -> same_index s (snd (populateRoomToUser c s)).
Proof.
  intros [m [Hu Hr]].
  pose proof (populateRoomToUser_inverted c s) as Hr'.
  destruct (populateRoomToUser_spec c s) as [Hu' [Ht [Hf [Hm _]]]].
  rewrite (getUserToRooms_cached c s Hu) in *. simpl in *.
  unfold same_index. repeat split; congruence.
Qed.

Lemma step_quiet (s : DMRoomMap) (m : Moment) :
  built s -> quiet m = true -> same_index s (step s m).
Proof.
  intros Hb Hq. pose proof Hb as [m0 [Hu Hr]].
  unfold step, quiet in *. destruct (action m) as [| |ev|u|ids|r| |].
  - unfold start.
    pose proof (populateRoomToUser_built (now_client m) Hb) as Hp.
    destruct (populateRoomToUser (now_client m) s) as [[] s1]. exact Hp.
  - unfold same_index. simpl. auto.
  - destruct (listening s); [|apply same_index_refl].
    unfold onAccountData. apply negb_true_iff in Hq. rewrite Hq. apply same_index_refl.
  - rewrite (getDMRoomsForUserId_cached _ s u Hu). apply same_index_refl.
  - rewrite getDMRoomForIdentifiers_spec, (getUserToRooms_cached _ s Hu).
    apply same_index_refl.
  - rewrite getUserIdForRoomId_state, Hr. apply same_index_refl.
  - rewrite getUniqueRoomsWithIndividuals_state. apply same_index_refl.
  - apply same_index_refl.
Qed.

Lemma run_quiet (l : list Moment) (s : DMRoomMap) :
  built s -> forallb quiet l = true -> same_index s (run s l).
Proof.
  revert s. induction l as [|m l IH]; intros s Hb Hq; [apply same_index_refl|].
  simpl in *. apply andb_true_iff in Hq. destruct Hq as [Hm Hl].
  pose proof (step_quiet m Hb Hm) as Hs.
  apply same_index_trans with (s2 := step s m); [assumption|].
  apply IH; [|assumption]. now apply same_index_built with (s := s).
Qed.

(** X13.  Once an instance is started, and until an event of the Direct Map type
    is notified, no call (queries, start and stop again, events of other
    types) rebuilds an index, changes the stored map, logs or writes back,
    whatever the session becomes; and rooms-for-user returns what it returned
    right after the start. *)
Theorem quiet_run_keeps_indexes (c : MatrixClient) (s0 : DMRoomMap) (l : list Moment) :
  forallb quiet l = true ->
  let s := snd (start c s0) in
  same_index s (run s l) /\
  forall c' u, fst (getDMRoomsForUserId c' u (run s l)) = fst (getDMRoomsForUserId c' u s).
Proof.
  intros Hq s.
  pose proof (built_start c s0) as Hb. fold s in Hb.
  pose proof (run_quiet l Hb Hq) as Hs.
  split; [assumption|]. intros c' u.
  destruct Hb as [m [Hu Hr]]. destruct Hs as [Hu' _]. rewrite Hu in Hu'.
  now rewrite (getDMRoomsForUserId_cached c' _ u Hu'), (getDMRoomsForUserId_cached c' _ u Hu).
Qed.

Lemma quiet_run_keeps_indexes_witness :
  let c := Sample.misfiled in
  let c' := Sample.common in
  let other := mkEvent "m.push_rules" [(Sample.bob, [Sample.r3])] in
  let l := [mkMoment c' c' (CallGetDMRoomsForUserId Sample.alice);
            mkMoment c' c' (EmitAccountData other);
            mkMoment c' c' (CallGetUserIdForRoomId Sample.r1);
            mkMoment c' c' CallStart] in
  trace (run (snd (start c (constructor c))) l) = trace (snd (start c (constructor c))) /\
  fst (getDMRoomsForUserId c' Sample.alice (run (snd (start c (constructor c))) l)) =
  [Sample.r1].
Proof.
  intros c c' other l.
  destruct (@quiet_run_keeps_indexes c (constructor c) l eq_refl)
    as [[_ [_ [_ [Ht _]]]] Hq].
  split; [exact Ht|]. rewrite Hq. reflexivity.
Defined.

(** * The leave-space dialog *)

Lemma isOnlyAdmin_members (id : string) (cred : option string) (rule : string)
  (members : list LeaveSpace.RoomMember) :
  LeaveSpace.isOnlyAdmin (LeaveSpace.mkRoom id members cred rule) = true <->
  forall member,
    In member members ->
    LeaveSpace.is_other (LeaveSpace.mkRoom id members cred rule) member = true ->
    QArith_base.Qeq_bool (LeaveSpace.powerLevelNorm member) LeaveSpace.hundred = false.
Proof.
  unfold LeaveSpace.isOnlyAdmin. simpl. rewrite negb_true_iff. split.
  - intros H member Hin Ho.
    destruct (QArith_base.Qeq_bool _ _) eqn:E; [|reflexivity].
    assert (Hex : existsb
                    (fun member0 =>
                       LeaveSpace.is_other (LeaveSpace.mkRoom id members cred rule) member0
                       && QArith_base.Qeq_bool (LeaveSpace.powerLevelNorm member0)
                                               LeaveSpace.hundred) members = true).
    { apply existsb_exists. exists member. split; [assumption|]. now rewrite Ho, E. }
    congruence.
  - intros H. apply Bool.not_true_iff_false. intros Hex.
    apply existsb_exists in Hex. destruct Hex as [member [Hin Hm]].
    apply andb_true_iff in Hm. destruct Hm as [Ho Hq].
    rewrite (H member Hin Ho) in Hq. discriminate.
Qed.

(** X14.  [isOnlyAdmin] is true exactly when no joined member other than the user
    of the client has the normalised power level 100.  The own power level is
    not looked at: the own entry can be left out of the member list, whatever
    its level, without changing the answer, and a room without joined members
    counts as one the user is the only admin of. *)
Theorem isOnlyAdmin_ignores_own_level
  (id me rule : string) (before after : list LeaveSpace.RoomMember)
  (level : QArith_base.Q) :
  let room := fun members => LeaveSpace.mkRoom id members (Some me) rule in
  (forall members,
      LeaveSpace.isOnlyAdmin (room members) = true <->
      forall member,
        In member members ->
        LeaveSpace.userId member <> me ->
        QArith_base.Qeq_bool (LeaveSpace.powerLevelNorm member) LeaveSpace.hundred = false) /\
  LeaveSpace.isOnlyAdmin (room (before ++ LeaveSpace.mkMember me level :: after)) =
  LeaveSpace.isOnlyAdmin (room (before ++ after)) /\
  LeaveSpace.isOnlyAdmin (room []) = true.
Proof.
  intros room. split; [|split].
  - intros members. unfold room. rewrite isOnlyAdmin_members. unfold LeaveSpace.is_other. simpl.
    split; intros H member Hin Hne; apply H; try assumption.
    + apply negb_true_iff. now apply String.eqb_neq.
    + apply negb_true_iff in Hne. now apply String.eqb_neq.
  - unfold room, LeaveSpace.isOnlyAdmin. simpl. f_equal.
    rewrite !existsb_app. simpl. unfold LeaveSpace.is_other at 2. simpl.
    rewrite String.eqb_refl. reflexivity.
  - reflexivity.
Qed.

Lemma filter_length_pos (A : Type) (f : A -> bool) (l : list A) :
  Nat.ltb 0 (List.length (filter f l)) = true <-> exists x, In x l /\ f x = true.
Proof.
  rewrite Nat.ltb_lt. split.
  - intros H. destruct (filter f l) as [|x t] eqn:E; [simpl in H; lia|].
    exists x. apply filter_In. rewrite E. now left.
  - intros [x Hx]. apply filter_In in Hx.
    destruct (filter f l); [destruct Hx | simpl; lia].
Qed.

(** X15.  The only-admin warning of the dialog: there is none exactly when the user
    is not the only admin of the space nor of any room selected to leave; the
    warning about the space comes first, whatever is selected; and selecting
    more rooms never takes a warning away. *)
Theorem onlyAdminWarning_cases
  (_t : string -> string) (space : LeaveSpace.Room)
  (roomsToLeave more : list LeaveSpace.Room) :
  (LeaveSpace.onlyAdminWarning _t space roomsToLeave = None <->
   LeaveSpace.isOnlyAdmin space = false /\
   forall room, In room roomsToLeave -> LeaveSpace.isOnlyAdmin room = false) /\
  (LeaveSpace.isOnlyAdmin space = true ->
   LeaveSpace.onlyAdminWarning _t space roomsToLeave = LeaveSpace.onlyAdminWarning _t space []) /\
  (LeaveSpace.onlyAdminWarning _t space roomsToLeave <> None ->
   LeaveSpace.onlyAdminWarning _t space (roomsToLeave ++ more) <> None).
Proof.
  assert (Hnone : forall rooms,
             LeaveSpace.onlyAdminWarning _t space rooms = None <->
             LeaveSpace.isOnlyAdmin space = false /\
             forall room, In room rooms -> LeaveSpace.isOnlyAdmin room = false).
  { intros rooms. unfold LeaveSpace.onlyAdminWarning.
    destruct (LeaveSpace.isOnlyAdmin space).
    - split; [discriminate | intros [H _]; discriminate].
    - destruct (Nat.ltb 0 (List.length (filter LeaveSpace.isOnlyAdmin rooms))) eqn:E.
      + split; [discriminate|]. intros [_ H].
        apply filter_length_pos in E. destruct E as [room [Hin Hr]].
        rewrite (H room Hin) in Hr. discriminate.
      + split; [|reflexivity]. intros _. split; [reflexivity|].
        intros room Hin. destruct (LeaveSpace.isOnlyAdmin room) eqn:Er; [|reflexivity].
        assert (Hpos : Nat.ltb 0 (List.length (filter LeaveSpace.isOnlyAdmin rooms)) = true).
        { apply filter_length_pos. eauto. }
        congruence. }
  split; [apply Hnone|]. split.
  - intros H. unfold LeaveSpace.onlyAdminWarning. now rewrite H.
  - intros H Hmore. apply H. apply Hnone. apply Hnone in Hmore.
    destruct Hmore as [Hs Hr]. split; [assumption|].
    intros room Hin. apply Hr. apply in_or_app. now left.
Qed.

Lemma onlyAdminWarning_cases_witness :
  LeaveSpace.onlyAdminWarning (fun s => s) LeaveSpace.with_boss [] = None /\
  LeaveSpace.onlyAdminWarning (fun s => s) LeaveSpace.with_boss [LeaveSpace.alone] <> None.
Proof.
  destruct (@onlyAdminWarning_cases (fun s => s) LeaveSpace.with_boss [] [LeaveSpace.alone])
    as [H1 _].
  split.
  - apply H1. split; [reflexivity | intros room []].
  - discriminate.
Defined.

(** * The passphrase field *)

Lemma truthy_neq (s : string) : truthy s = true <-> s <> "".
Proof. unfold truthy. rewrite negb_true_iff. apply String.eqb_neq. Qed.

(** X16.  A password passes the complexity rule below the minimum score only
    through the configuration flag: when the test passes, the value is not
    empty and it has been scored, and either the score reaches the minimum
    and the message is the strong-password label, or the flag is set, the
    score is below the minimum and the message is the allowed-but-unsafe
    label.  With the flag off a passing password always gets the
    strong-password label. *)
Theorem unsafe_only_with_flag
  (_t : string -> string) (allowUnsafe : bool) (props : PassphraseField.Props)
  (value : string) (complexity : option PassphraseField.ZXCVBNResult) :
  PassphraseField.complexity_test allowUnsafe props value complexity = true ->
  value <> "" /\
  (exists c,
      complexity = Some c /\
      ((PassphraseField.minScore props <= PassphraseField.score c /\
        PassphraseField.complexity_valid _t props complexity =
        _t (PassphraseField.labelStrongPassword props)) \/
       (allowUnsafe = true /\
        PassphraseField.score c < PassphraseField.minScore props /\
        PassphraseField.complexity_valid _t props complexity =
        _t (PassphraseField.labelAllowedButUnsafe props)))) /\
  (allowUnsafe = false ->
   PassphraseField.complexity_valid _t props complexity =
   _t (PassphraseField.labelStrongPassword props)).
Proof.
  unfold PassphraseField.complexity_test, PassphraseField.complexity_valid.
  destruct (truthy value) eqn:Ev; [|discriminate].
  destruct complexity as [c|]; [|discriminate].
  intros H. split; [now apply truthy_neq|].
  destruct (Nat.leb (PassphraseField.minScore props) (PassphraseField.score c)) eqn:El.
  - apply Nat.leb_le in El. split; [|reflexivity]. exists c. auto.
  - apply Nat.leb_gt in El. rewrite orb_false_r in H. split.
    + exists c. split; [reflexivity|]. right. auto.
    + intros Hf. congruence.
Qed.

Lemma unsafe_only_with_flag_witness :
  let props := PassphraseField.mkProps 3 "Enter password" "Nice, strong password!"
                                       "Password is allowed, but unsafe" in
  let weak := PassphraseField.mkResult 1 (PassphraseField.mkFeedback "" []) in
  PassphraseField.complexity_test true props "hunter2" (Some weak) = true /\
  PassphraseField.complexity_valid (fun s => s) props (Some weak) =
  "Password is allowed, but unsafe".
Proof.
  intros props weak. split; [reflexivity|].
  destruct (@unsafe_only_with_flag (fun s => s) true props "hunter2" (Some weak) eq_refl)
    as [_ [[c [Hc [[Hle _]|[_ [_ Hv]]]]] _]].
  - injection Hc as <-. simpl in Hle. lia.
  - exact Hv.
Defined.

(** X17.  The complexity rule on the data derived for the same value: it passes
    exactly when the value is not empty, the scorer gives a result for it, and
    the flag is set or the score reaches the minimum.  So the empty password
    never passes it, flag or not, and it passes the required rule only where
    an empty value is allowed. *)
Theorem complexity_of_derived
  (scorePassword : string -> option PassphraseField.ZXCVBNResult)
  (allowUnsafe : bool) (props : PassphraseField.Props) (value : string) :
  (PassphraseField.complexity_test allowUnsafe props value
     (PassphraseField.deriveData scorePassword value) = true <->
   value <> "" /\
   exists c, scorePassword value = Some c /\
             (allowUnsafe = true \/
              PassphraseField.minScore props <= PassphraseField.score c)) /\
  PassphraseField.deriveData scorePassword "" = None /\
  PassphraseField.complexity_test allowUnsafe props ""
    (PassphraseField.deriveData scorePassword "") = false /\
  (forall allowEmpty, PassphraseField.required_test "" allowEmpty = allowEmpty).
Proof.
  split; [|split; [reflexivity | split; [reflexivity | intros []; reflexivity]]].
  unfold PassphraseField.complexity_test, PassphraseField.deriveData.
  destruct (truthy value) eqn:Ev; simpl.
  - apply truthy_neq in Ev. destruct (scorePassword value) as [c|].
    + rewrite orb_true_iff, Nat.leb_le. split.
      * intros H. split; [assumption|]. exists c. auto.
      * intros [_ [c' [[= <-] H]]]. assumption.
    + split; [discriminate|]. intros [_ [c [Hc _]]]. discriminate.
  - split; [discriminate|]. intros [Hne _]. apply truthy_neq in Hne. congruence.
Qed.



(** * The repair adds guessed rooms only *)

(** X8.  A room is in the list of another user after the repair only if it was
    there before, or it was in the own list and that user is the guess of the
    session for it. *)
Theorem repair_adds_only_guessed (c : MatrixClient) (m : DirectMap) (k r : string) :
  k <> getUserId c ->
  In r (rooms_of (snd (patchUpSelfDMs c m)) k) ->
  In r (rooms_of m k) \/
  (In r (rooms_of m (getUserId c)) /\ guessed c (getUserId c) r = Some (k, r)).
Proof.
  intros Hk Hin. rewrite rooms_of_patch_other in Hin by assumption.
  destruct (reassigned_to k (changes c m)) as [|r1 rs] eqn:E; [auto|].
  rewrite uniq_In, in_app_iff in Hin. destruct Hin as [Hin|Hin]; [auto|].
  rewrite <- E in Hin. apply reassigned_to_In in Hin. right.
  destruct (changes_In c _ _ Hin) as [self [Hs [Hr Hg]]]. simpl in *.
  unfold rooms_of. rewrite Hs. auto.
Qed.

Lemma repair_adds_only_guessed_witness :
  let c := Sample.misfiled in
  guessed c Sample.me Sample.r1 = Some (Sample.alice, Sample.r1).
Proof.
  intros c.
  destruct (@repair_adds_only_guessed c (mDirectEvent (constructor c)) Sample.alice Sample.r1)
    as [H|[_ H]].
  - discriminate.
  - now left.
  - destruct H.
  - exact H.
Defined.

Lemma roomToUser_keys_are_room_ids_witness :
  let c := Sample.common in
  let s := run (constructor c) [mkMoment c c CallStart] in
  In Sample.r3 (getRoomIds s) /\ ~ In "!other:example.org" (getRoomIds s).
Proof.
  intros c s.
  pose proof (@roomToUser_keys_are_room_ids c [mkMoment c c CallStart]
                [(Sample.r1, Sample.alice); (Sample.r2, Sample.bob); (Sample.r3, Sample.bob)])
    as H.
  split.
  - apply (H Sample.r3 eq_refl). simpl. auto.
  - intros Hin. apply (H "!other:example.org" eq_refl) in Hin. simpl in Hin.
    intuition discriminate.
Defined.
